(** * MixedReality-WebRTC native layer: global factory and audio read stream

    A shallow embedding of

    - [interop/global_factory.cpp]: the process-wide [GlobalFactory], which
      lazily builds the WebRTC threads and the peer connection factory, keeps
      the map of alive tracked objects and shuts everything down when the last
      one is removed;
    - [peer_connection.h]: [AudioReadStream] and its working [Buffer].

    Every public method of [GlobalFactory] takes [mutex_] for its whole body,
    so calls are serialised; a method is modelled as one atomic transition of
    the factory state.  Acquiring the [std::scoped_lock] is taken to succeed. *)

From Stdlib Require Import ZArith List Lia Bool Floats.
From stdpp Require Import gmap list strings.
Import ListNotations.

Local Open Scope Z_scope.

Set Warnings "-clear-no-such-hyp".

(* ===================================================================== *)
(** * Part I.  interop/global_factory.cpp                                  *)
(* ===================================================================== *)

Module GlobalFactory.

(** [enum class ObjectType]; the three [static_assert]s of
    [ObjectTypeToString] fix the numbering. *)
Inductive ObjectType : Set :=
| kPeerConnection
| kLocalVideoTrack
| kExternalVideoTrackSource.

#[global] Instance ObjectType_eq_dec : EqDecision ObjectType.
Proof. solve_decision. Defined.

Definition ObjectType_to_int (type : ObjectType) : Z :=
  match type with
  | kPeerConnection => 0
  | kLocalVideoTrack => 1
  | kExternalVideoTrackSource => 2
  end.

Definition s_types : list string :=
  ["PeerConnection"; "LocalVideoTrack"; "ExternalVideoTrackSource"]%string.

Definition ObjectTypeToString (type : ObjectType) : string :=
  nth (Z.to_nat (ObjectType_to_int type)) s_types EmptyString.

(** The values of [mrsResult] the factory produces. *)
Inductive Result : Set :=
| kSuccess
| kUnknownError
| kWrongThread.

#[global] Instance Result_eq_dec : EqDecision Result.
Proof. solve_decision. Defined.

(** Objects built by the engine are identified by what they are and by the
    run of [Initialize] that built them (runs are numbered from 0), so two
    objects of two different runs are never confused. *)
Inductive ThreadRole : Set := Network | Worker | Signaling.

Inductive Thread : Set := ThreadOf (role : ThreadRole) (run : nat).

Inductive PeerConnectionFactoryInterface : Set := FactoryOf (run : nat).

Inductive WebRtcFactory : Set := ImplOf (run : nat).

#[global] Instance ThreadRole_eq_dec : EqDecision ThreadRole.
Proof. solve_decision. Defined.
#[global] Instance Thread_eq_dec : EqDecision Thread.
Proof. solve_decision. Defined.
#[global] Instance Factory_eq_dec : EqDecision PeerConnectionFactoryInterface.
Proof. solve_decision. Defined.
#[global] Instance Impl_eq_dec : EqDecision WebRtcFactory.
Proof. solve_decision. Defined.

(** What the wrapped engine answers, per run of [Initialize]: [true] when the
    call yields a non-null object.
    - [Thread_Create]: [rtc::Thread::CreateWithSocketServer()] and
      [rtc::Thread::Create()];
    - [CreatePeerConnectionFactory]: [webrtc::CreatePeerConnectionFactory(...)];
    - [peerConnectionFactory]: [impl_->peerConnectionFactory()] (WINUWP);
    - [workerThread]: [impl_->workerThread.get()] (WINUWP), the worker thread
      the [WebRtcFactory] of that run holds. *)
Record Engine : Type := {
  Thread_Create : ThreadRole -> nat -> bool;
  CreatePeerConnectionFactory : nat -> bool;
  peerConnectionFactory : nat -> bool;
  workerThread : nat -> bool
}.

(** The members of [GlobalFactory].  A null smart pointer is [None].
    [alive_objects_] maps the address of a [TrackedObject] to its type.
    [impl_] exists in the WINUWP build only, the three threads in the other
    build only; the member a build lacks stays [None].
    [init_runs] and [shutdown_runs] are instrumentation: how many times
    [Initialize] and [ShutdownNoLock] have been entered. *)
Record State : Type := {
  factory_ : option PeerConnectionFactoryInterface;
  impl_ : option WebRtcFactory;
  network_thread_ : option Thread;
  worker_thread_ : option Thread;
  signaling_thread_ : option Thread;
  alive_objects_ : gmap N ObjectType;
  init_runs : nat;
  shutdown_runs : nat
}.

(** [std::make_unique<GlobalFactory>()] *)
Definition initial : State :=
  {| factory_ := None; impl_ := None;
     network_thread_ := None; worker_thread_ := None;
     signaling_thread_ := None;
     alive_objects_ := ∅; init_runs := 0; shutdown_runs := 0 |}.

Definition set_factory_ (v : option PeerConnectionFactoryInterface) (s : State) : State :=
  {| factory_ := v; impl_ := impl_ s;
     network_thread_ := network_thread_ s; worker_thread_ := worker_thread_ s;
     signaling_thread_ := signaling_thread_ s;
     alive_objects_ := alive_objects_ s;
     init_runs := init_runs s; shutdown_runs := shutdown_runs s |}.

Definition set_impl_ (v : option WebRtcFactory) (s : State) : State :=
  {| factory_ := factory_ s; impl_ := v;
     network_thread_ := network_thread_ s; worker_thread_ := worker_thread_ s;
     signaling_thread_ := signaling_thread_ s;
     alive_objects_ := alive_objects_ s;
     init_runs := init_runs s; shutdown_runs := shutdown_runs s |}.

Definition set_network_thread_ (v : option Thread) (s : State) : State :=
  {| factory_ := factory_ s; impl_ := impl_ s;
     network_thread_ := v; worker_thread_ := worker_thread_ s;
     signaling_thread_ := signaling_thread_ s;
     alive_objects_ := alive_objects_ s;
     init_runs := init_runs s; shutdown_runs := shutdown_runs s |}.

Definition set_worker_thread_ (v : option Thread) (s : State) : State :=
  {| factory_ := factory_ s; impl_ := impl_ s;
     network_thread_ := network_thread_ s; worker_thread_ := v;
     signaling_thread_ := signaling_thread_ s;
     alive_objects_ := alive_objects_ s;
     init_runs := init_runs s; shutdown_runs := shutdown_runs s |}.

Definition set_signaling_thread_ (v : option Thread) (s : State) : State :=
  {| factory_ := factory_ s; impl_ := impl_ s;
     network_thread_ := network_thread_ s; worker_thread_ := worker_thread_ s;
     signaling_thread_ := v;
     alive_objects_ := alive_objects_ s;
     init_runs := init_runs s; shutdown_runs := shutdown_runs s |}.

Definition set_alive_objects_ (v : gmap N ObjectType) (s : State) : State :=
  {| factory_ := factory_ s; impl_ := impl_ s;
     network_thread_ := network_thread_ s; worker_thread_ := worker_thread_ s;
     signaling_thread_ := signaling_thread_ s;
     alive_objects_ := v;
     init_runs := init_runs s; shutdown_runs := shutdown_runs s |}.

Definition tick_init (s : State) : State :=
  {| factory_ := factory_ s; impl_ := impl_ s;
     network_thread_ := network_thread_ s; worker_thread_ := worker_thread_ s;
     signaling_thread_ := signaling_thread_ s;
     alive_objects_ := alive_objects_ s;
     init_runs := S (init_runs s); shutdown_runs := shutdown_runs s |}.

Definition tick_shutdown (s : State) : State :=
  {| factory_ := factory_ s; impl_ := impl_ s;
     network_thread_ := network_thread_ s; worker_thread_ := worker_thread_ s;
     signaling_thread_ := signaling_thread_ s;
     alive_objects_ := alive_objects_ s;
     init_runs := init_runs s; shutdown_runs := S (shutdown_runs s) |}.

(** ** Control: normal return, C++ exception, fatal check

    [Returns a s]: the code ran to its end with value [a] in state [s].
    [Throws s]: an exception is propagating, thrown in state [s].
    [Aborts]: an [RTC_CHECK] failed (or a null pointer was dereferenced) and
    the process is gone. *)
Inductive outcome (A : Type) : Type :=
| Returns (a : A) (s : State)
| Throws (s : State)
| Aborts.

Arguments Returns {A} a s.
Arguments Throws {A} s.
Arguments Aborts {A}.

Definition M (A : Type) : Type := State -> outcome A.

#[global] Instance M_ret : MRet M := fun A (a : A) (s : State) => Returns a s.

#[global] Instance M_bind : MBind M :=
  fun A B (k : A -> M B) (m : M A) (s : State) =>
    match m s with
    | Returns a s' => k a s'
    | Throws s' => Throws s'
    | Aborts => Aborts
    end.

Definition getState : M State := fun s => Returns s s.

Definition modifyState (f : State -> State) : M unit := fun s => Returns tt (f s).

Definition throw {A} : M A := fun s => Throws s.

Definition abort {A} : M A := fun _ => Aborts.

(** [RTC_CHECK(cond)]: active in every build type, fatal when [cond] is false. *)
Definition RTC_CHECK (cond : bool) : M unit :=
  fun s => if cond then Returns tt s else Aborts.

(** [try { body } catch (...) {}] *)
Definition try_catch_all (body : M unit) : M unit :=
  fun s =>
    match body s with
    | Returns a s' => Returns a s'
    | Throws s' => Returns tt s'
    | Aborts => Aborts
    end.

Definition isSome {A} (o : option A) : bool :=
  match o with Some _ => true | None => false end.

Section Build.

(** [WINUWP]: whether the macro is defined for this build.
    [engine]: the answers of the wrapped engine. *)
Variable WINUWP : bool.
Variable engine : Engine.

(** [GlobalFactory::ShutdownNoLock] *)
Definition ShutdownNoLock : M unit :=
  modifyState tick_shutdown ;;
  modifyState (set_factory_ None) ;;
  if WINUWP then
    modifyState (set_impl_ None)
  else
    modifyState (set_network_thread_ None) ;;
    modifyState (set_worker_thread_ None) ;;
    modifyState (set_signaling_thread_ None).

(** One thread of the non-WINUWP [Initialize]: create, [RTC_CHECK] that the
    pointer is not null, name and start it.  [SetName] and [Start] leave the
    members as they are. *)
Definition create_thread (role : ThreadRole) (run : nat) : option Thread :=
  if Thread_Create engine role run then Some (ThreadOf role run) else None.

(** [GlobalFactory::Initialize].  [hasThreadAccess] is what
    [dispatcher.HasThreadAccess()] answers for the calling thread; only the
    WINUWP build asks.  With [DISABLE_AUTOMATIC_AUDIO_RENDERING] 1 and
    [INSTALL_DUMMY_ADM_ON_EDGE_CASE] 0 the mixer and the audio device module
    are arguments of the factory construction and touch no member. *)
Definition Initialize (hasThreadAccess : bool) : M Result :=
  s0 ← getState;
  let run := init_runs s0 in
  modifyState tick_init ;;
  RTC_CHECK (negb (isSome (factory_ s0))) ;;
  (if WINUWP then
     RTC_CHECK (negb (isSome (impl_ s0))) ;;
     if hasThreadAccess then
       mret kWrongThread
     else
       modifyState (set_impl_ (Some (ImplOf run))) ;;
       modifyState (set_factory_
         (if peerConnectionFactory engine run then Some (FactoryOf run) else None)) ;;
       s ← getState;
       mret (if isSome (factory_ s) then kSuccess else kUnknownError)
   else
     modifyState (set_network_thread_ (create_thread Network run)) ;;
     s ← getState;
     RTC_CHECK (isSome (network_thread_ s)) ;;
     modifyState (set_worker_thread_ (create_thread Worker run)) ;;
     s ← getState;
     RTC_CHECK (isSome (worker_thread_ s)) ;;
     modifyState (set_signaling_thread_ (create_thread Signaling run)) ;;
     s ← getState;
     RTC_CHECK (isSome (signaling_thread_ s)) ;;
     modifyState (set_factory_
       (if CreatePeerConnectionFactory engine run then Some (FactoryOf run) else None)) ;;
     s ← getState;
     mret (if isSome (factory_ s) then kSuccess else kUnknownError)).

(** [GlobalFactory::GetOrCreate()], the overload returning the pointer. *)
Definition GetOrCreate (hasThreadAccess : bool)
  : M (option PeerConnectionFactoryInterface) :=
  s ← getState;
  if negb (isSome (factory_ s)) then
    res ← Initialize hasThreadAccess;
    if decide (res <> kSuccess) then
      mret None
    else
      s' ← getState; mret (factory_ s')
  else
    mret (factory_ s).

(** [GlobalFactory::GetOrCreate(factory&)].  [factory] is the caller's
    variable on entry; the result carries its value on exit. *)
Definition GetOrCreate_ref (hasThreadAccess : bool)
    (factory : option PeerConnectionFactoryInterface)
  : M (Result * option PeerConnectionFactoryInterface) :=
  let factory : option PeerConnectionFactoryInterface := None in
  s ← getState;
  if negb (isSome (factory_ s)) then
    res ← Initialize hasThreadAccess;
    if decide (res <> kSuccess) then
      mret (res, factory)
    else
      s' ← getState;
      let factory := factory_ s' in
      mret (if isSome factory then kSuccess else kUnknownError, factory)
  else
    let factory := factory_ s in
    mret (if isSome factory then kSuccess else kUnknownError, factory).

(** [GlobalFactory::GetExisting] *)
Definition GetExisting : M (option PeerConnectionFactoryInterface) :=
  s ← getState; mret (factory_ s).

(** [GlobalFactory::GetWorkerThread].  The WINUWP build reads the worker
    thread of [impl_]: what the [WebRtcFactory] holds is the engine's
    business, and may be null; a null [impl_] is dereferenced there. *)
Definition GetWorkerThread : M (option Thread) :=
  s ← getState;
  if WINUWP then
    match impl_ s with
    | Some (ImplOf run) =>
        mret (if workerThread engine run then Some (ThreadOf Worker run) else None)
    | None => abort
    end
  else
    mret (worker_thread_ s).

(** [alive_objects_.emplace(obj, type)]: a key already present keeps its
    value.  The node allocation may throw ([bad_alloc = true]); the map is
    then unchanged. *)
Definition emplace (bad_alloc : bool) (obj : N) (type : ObjectType) : M unit :=
  if bad_alloc then throw
  else
    modifyState (fun s =>
      match alive_objects_ s !! obj with
      | Some _ => s
      | None => set_alive_objects_ (<[obj := type]> (alive_objects_ s)) s
      end).

(** [GlobalFactory::AddObject] *)
Definition AddObject (bad_alloc : bool) (type : ObjectType) (obj : N) : M unit :=
  try_catch_all (emplace bad_alloc obj type).

(** [GlobalFactory::RemoveObject] *)
Definition RemoveObject (type : ObjectType) (obj : N) : M unit :=
  try_catch_all (
    s ← getState;
    match alive_objects_ s !! obj with
    | Some second =>
        RTC_CHECK (bool_decide (second = type)) ;;
        modifyState (fun s => set_alive_objects_ (delete obj (alive_objects_ s)) s) ;;
        s' ← getState;
        if decide (alive_objects_ s' = ∅) then ShutdownNoLock else mret tt
    | None => mret tt
    end).

(** One line of the log of [~GlobalFactory]:
    [ObjectToString(pair.second, pair.first)] tests the pointer before it
    reads the name, [pair.first->GetApproxRefCount()] does not, so a null key
    (address 0) is dereferenced. *)
Definition log_line (entry : N * ObjectType) : M unit :=
  if decide (fst entry = 0%N) then abort else mret tt.

Fixpoint log_lines (entries : list (N * ObjectType)) : M unit :=
  match entries with
  | [] => mret tt
  | entry :: rest => log_line entry ;; log_lines rest
  end.

(** [GlobalFactory::~GlobalFactory]: the result is the list of objects
    reported as still alive, one log line each. *)
Definition Destructor : M (list (N * ObjectType)) :=
  s ← getState;
  let leaked :=
    if decide (alive_objects_ s = ∅) then [] else map_to_list (alive_objects_ s) in
  log_lines leaked ;;
  ShutdownNoLock ;;
  mret leaked.

(** [GlobalFactory::get] (WINUWP) *)
Definition get (hasThreadAccess : bool) : M (option WebRtcFactory) :=
  s ← getState;
  if negb (isSome (impl_ s)) then
    res ← Initialize hasThreadAccess;
    if decide (res <> kSuccess) then
      mret None
    else
      s' ← getState; mret (impl_ s')
  else
    mret (impl_ s).

(** [GlobalFactory::GetOrCreateWebRtcFactory] (WINUWP) *)
Definition GetOrCreateWebRtcFactory (hasThreadAccess : bool)
    (factory : option WebRtcFactory)
  : M (Result * option WebRtcFactory) :=
  let factory : option WebRtcFactory := None in
  s ← getState;
  if negb (isSome (impl_ s)) then
    res ← Initialize hasThreadAccess;
    if decide (res <> kSuccess) then
      mret (res, factory)
    else
      s' ← getState;
      let factory := impl_ s' in
      mret (if isSome factory then kSuccess else kUnknownError, factory)
  else
    let factory := impl_ s in
    mret (if isSome factory then kSuccess else kUnknownError, factory).

(** ** Sequences of calls

    The public entry points as a datatype, to speak about what a client can
    do to the factory over time.  [get] and [GetOrCreateWebRtcFactory] are
    compiled in the WINUWP build only. *)
Inductive call : Type :=
| Call_GetOrCreate (hasThreadAccess : bool)
| Call_GetOrCreate_ref (hasThreadAccess : bool)
    (factory : option PeerConnectionFactoryInterface)
| Call_GetExisting
| Call_GetWorkerThread
| Call_AddObject (bad_alloc : bool) (type : ObjectType) (obj : N)
| Call_RemoveObject (type : ObjectType) (obj : N)
| Call_get (hasThreadAccess : bool)
| Call_GetOrCreateWebRtcFactory (hasThreadAccess : bool)
    (factory : option WebRtcFactory).

Inductive reply : Type :=
| Reply_factory (f : option PeerConnectionFactoryInterface)
| Reply_result_factory (res : Result) (f : option PeerConnectionFactoryInterface)
| Reply_thread (t : option Thread)
| Reply_void
| Reply_impl (i : option WebRtcFactory)
| Reply_result_impl (res : Result) (i : option WebRtcFactory).

Definition in_build (c : call) : bool :=
  match c with
  | Call_get _ | Call_GetOrCreateWebRtcFactory _ _ => WINUWP
  | _ => true
  end.

Definition perform (c : call) : M reply :=
  match c with
  | Call_GetOrCreate a => f ← GetOrCreate a; mret (Reply_factory f)
  | Call_GetOrCreate_ref a f0 =>
      rf ← GetOrCreate_ref a f0; mret (Reply_result_factory (fst rf) (snd rf))
  | Call_GetExisting => f ← GetExisting; mret (Reply_factory f)
  | Call_GetWorkerThread => t ← GetWorkerThread; mret (Reply_thread t)
  | Call_AddObject e type obj => AddObject e type obj ;; mret Reply_void
  | Call_RemoveObject type obj => RemoveObject type obj ;; mret Reply_void
  | Call_get a => i ← get a; mret (Reply_impl i)
  | Call_GetOrCreateWebRtcFactory a i0 =>
      ri ← GetOrCreateWebRtcFactory a i0; mret (Reply_result_impl (fst ri) (snd ri))
  end.

Fixpoint perform_all (cs : list call) : M (list reply) :=
  match cs with
  | [] => mret []
  | c :: cs' => r ← perform c; rs ← perform_all cs'; mret (r :: rs)
  end.

(** A state the factory can be in: reached from [initial] by calls of this
    build, none of which aborted the process. *)
Definition reachable (s : State) : Prop :=
  exists cs rs, forallb in_build cs = true /\ perform_all cs initial = Returns rs s.

End Build.

(** The states of the life cycle: nothing built, and everything built. *)
Definition Uninitialized (s : State) : Prop :=
  factory_ s = None /\ impl_ s = None /\
  network_thread_ s = None /\ worker_thread_ s = None /\
  signaling_thread_ s = None.

Definition threads_present (s : State) : Prop :=
  is_Some (network_thread_ s) /\ is_Some (worker_thread_ s) /\
  is_Some (signaling_thread_ s).

Definition threads_absent (s : State) : Prop :=
  network_thread_ s = None /\ worker_thread_ s = None /\
  signaling_thread_ s = None.

(** The factory handle and the three threads, all present or all absent. *)
Definition all_or_nothing (s : State) : Prop :=
  (is_Some (factory_ s) /\ threads_present s) \/
  (factory_ s = None /\ threads_absent s).

(** The member a build does not have is never set. *)
Definition build_members (WINUWP : bool) (s : State) : Prop :=
  if WINUWP then threads_absent s else impl_ s = None.

(** Every object held was built by a run of [Initialize] already counted. *)
Definition handles_counted (s : State) : Prop :=
  (forall p, factory_ s = Some (FactoryOf p) -> (p < init_runs s)%nat) /\
  (forall p, impl_ s = Some (ImplOf p) -> (p < init_runs s)%nat) /\
  (forall r p, network_thread_ s = Some (ThreadOf r p) -> (p < init_runs s)%nat) /\
  (forall r p, worker_thread_ s = Some (ThreadOf r p) -> (p < init_runs s)%nat) /\
  (forall r p, signaling_thread_ s = Some (ThreadOf r p) -> (p < init_runs s)%nat).

(** Whether the factory construction of a run yields an object. *)
Definition factory_built (WINUWP : bool) (engine : Engine) (run : nat) : bool :=
  if WINUWP then peerConnectionFactory engine run
  else CreatePeerConnectionFactory engine run.

(** Whether the three thread constructions of a run yield objects. *)
Definition threads_built (engine : Engine) (run : nat) : bool :=
  Thread_Create engine Network run && Thread_Create engine Worker run
  && Thread_Create engine Signaling run.

(** What [Initialize] leaves behind when it runs to its [return]. *)
Definition initialized (WINUWP : bool) (engine : Engine) (s : State) : State :=
  let run := init_runs s in
  let f := if factory_built WINUWP engine run then Some (FactoryOf run) else None in
  if WINUWP then
    set_factory_ f (set_impl_ (Some (ImplOf run)) (tick_init s))
  else
    set_factory_ f
      (set_signaling_thread_ (Some (ThreadOf Signaling run))
        (set_worker_thread_ (Some (ThreadOf Worker run))
          (set_network_thread_ (Some (ThreadOf Network run)) (tick_init s)))).

(** What [ShutdownNoLock] leaves behind. *)
Definition shut_down (WINUWP : bool) (s : State) : State :=
  if WINUWP then
    set_impl_ None (set_factory_ None (tick_shutdown s))
  else
    set_signaling_thread_ None
      (set_worker_thread_ None
        (set_network_thread_ None (set_factory_ None (tick_shutdown s)))).

(** What holds of the members in every state a client can bring about:
    the members are those of the build, every object held comes from a run
    already counted, the three threads come and go together, and a factory
    is never held without what it was built on. *)
Definition inv (WINUWP : bool) (s : State) : Prop :=
  build_members WINUWP s /\
  handles_counted s /\
  (threads_present s \/ threads_absent s) /\
  (is_Some (factory_ s) ->
     if WINUWP then is_Some (impl_ s) else threads_present s).

(** Whether a reply that carries a factory handle carries [f], with success. *)
Definition reply_shows (f : PeerConnectionFactoryInterface) (r : reply) : Prop :=
  match r with
  | Reply_factory o => o = Some f
  | Reply_result_factory res o => res = kSuccess /\ o = Some f
  | _ => True
  end.

(** Two engines to run the code on: one that builds everything it is asked
    for, one whose factory construction always yields null. *)
Definition engine_ok : Engine :=
  {| Thread_Create := fun _ _ => true;
     CreatePeerConnectionFactory := fun _ => true;
     peerConnectionFactory := fun _ => true;
     workerThread := fun _ => true |}.

Definition engine_no_factory : Engine :=
  {| Thread_Create := fun _ _ => true;
     CreatePeerConnectionFactory := fun _ => false;
     peerConnectionFactory := fun _ => false;
     workerThread := fun _ => true |}.

(** What one call can do to the members: nothing, one run of [Initialize],
    a change of the alive map, or such a change followed by the shutdown. *)
Inductive effect (WINUWP : bool) (engine : Engine) (s : State) : State -> Prop :=
| effect_none : effect WINUWP engine s s
| effect_init a res s' :
    Initialize WINUWP engine a s = Returns res s' -> effect WINUWP engine s s'
| effect_alive m : effect WINUWP engine s (set_alive_objects_ m s)
| effect_shutdown m :
    effect WINUWP engine s (shut_down WINUWP (set_alive_objects_ m s)).

(** ** Further notions used to speak about the factory *)

(** The factory handle held was built, in the same run of [Initialize], on
    the threads (or the WINUWP factory) held. *)
Definition built_together (WINUWP : bool) (s : State) : Prop :=
  forall r, factory_ s = Some (FactoryOf r) ->
    if WINUWP then impl_ s = Some (ImplOf r)
    else network_thread_ s = Some (ThreadOf Network r) /\
         worker_thread_ s = Some (ThreadOf Worker r) /\
         signaling_thread_ s = Some (ThreadOf Signaling r).

(** The calls that remove the objects of [l], in that order, each with the
    type paired with it. *)
Definition removals (l : list (N * ObjectType)) : list call :=
  map (fun p => Call_RemoveObject (snd p) (fst p)) l.

(** Whether a call is a [RemoveObject] naming an object recorded with
    another type. *)
Definition mismatched_removal (c : call) (s : State) : Prop :=
  match c with
  | Call_RemoveObject type obj =>
      exists k, alive_objects_ s !! obj = Some k /\ k <> type
  | _ => False
  end.

(** Whether a call can run [Initialize]. *)
Definition acquires (c : call) : bool :=
  match c with
  | Call_GetOrCreate _ | Call_GetOrCreate_ref _ _
  | Call_get _ | Call_GetOrCreateWebRtcFactory _ _ => true
  | _ => false
  end.

End GlobalFactory.

(* ===================================================================== *)
(** * Part II.  peer_connection.h: AudioReadStream                         *)
(* ===================================================================== *)

Module AudioReadStream.

(** ** Machine integers

    [int] is 32 bits, [size_t] 64 bits.  A value that does not fit wraps. *)
Definition INT_MAX : Z := 2147483647.
Definition INT_MIN : Z := -2147483648.

Definition to_int (z : Z) : Z := (z + 2 ^ 31) mod 2 ^ 32 - 2 ^ 31.

Definition to_size_t (z : Z) : Z := z mod 2 ^ 64.

Definition sizeof_float : Z := 4.

(** [struct Frame] *)
Record Frame : Type := {
  audio_data : list Byte.byte;
  bits_per_sample : Z;
  sample_rate : Z;
  number_of_channels : Z;
  number_of_frames : Z
}.

(** [struct Buffer].  [resampler_] belongs to the engine and holds no sample;
    it is left out. *)
Record Buffer : Type := {
  data_ : list float;
  used_ : Z;
  channels_ : Z;
  rate_ : Z
}.

(** [Buffer::available] *)
Definition available (b : Buffer) : Z :=
  to_int (to_int (Z.of_nat (length (data_ b))) - used_ b).

(** [memcpy(dst, src + off, n)] on arrays of [float], [n] in bytes.  [dst]
    is the array from the destination pointer to its end.  [None] when the
    copy would leave the source or the destination array. *)
Definition memcpy (dst src : list float) (off n : Z) : option (list float) :=
  let count := n / sizeof_float in
  if (0 <=? off) && (off + count <=? Z.of_nat (length src))
     && (count <=? Z.of_nat (length dst))
  then Some (firstn (Z.to_nat count) (skipn (Z.to_nat off) src)
             ++ skipn (Z.to_nat count) dst)
  else None.

(** [Buffer::readSome]: the number of samples taken, the destination array
    and the buffer afterwards. *)
Definition readSome (b : Buffer) (dst : list float) (dstLen : Z)
  : option (Z * list float * Buffer) :=
  let take := Z.min (available b) dstLen in
  match memcpy dst (data_ b) (used_ b)
               (to_size_t (to_size_t take * sizeof_float)) with
  | Some dst' =>
      Some (take, dst',
            {| data_ := data_ b; used_ := to_int (used_ b + take);
               channels_ := channels_ b; rate_ := rate_ b |})
  | None => None
  end.

(** The invariant of the working buffer. *)
Definition buffer_inv (b : Buffer) : Prop :=
  0 <= used_ b <= Z.of_nat (length (data_ b)).

(** A working buffer whose size an [int] can hold, with [used_] inside it. *)
Definition buffer_ok (b : Buffer) : Prop :=
  buffer_inv b /\ Z.of_nat (length (data_ b)) <= INT_MAX.

(** The members of [AudioReadStream]; [frames_] has the oldest frame first.
    [peer_] and [frames_mutex_] are left out: calls are taken one at a time. *)
Record Stream : Type := {
  frames_ : list Frame;
  buffer_ms_ : Z;
  sinwave_iter_ : Z;
  buffer_ : Buffer
}.

Section Adapter.

(** What lies outside [peer_connection.h]: the conversion of one raw frame to
    samples at a rate and channel count (the engine's resampler), the filler
    signal, and the horizon chosen when [bufferMs] is -1. *)
Variable resample : Frame -> Z -> Z -> list float.
Variable filler : Z -> float.
Variable autoBufferMs : Z.

(** The cadence of the engine: one frame every 10 ms. *)
Definition cadenceMs : Z := 10.

(** Modelled from the spec: the constructor [AudioReadStream(peer, bufferMs)],
    declared in [peer_connection.h], body elsewhere.  It keeps the horizon,
    -1 selecting the automatic one, and starts with an empty queue and
    working buffer. *)
Definition construct (bufferMs : Z) : Stream :=
  {| frames_ := [];
     buffer_ms_ := if bufferMs =? -1 then autoBufferMs else bufferMs;
     sinwave_iter_ := 0;
     buffer_ := {| data_ := []; used_ := 0; channels_ := 0; rate_ := 0 |} |}.

(** Modelled from the spec: the bound on unread raw frames, tied to the
    horizon [buffer_ms_]; the code that computes it is outside
    [peer_connection.h].  The horizon is counted in frames of the engine's
    cadence. *)
Definition horizonFrames (st : Stream) : nat :=
  Z.to_nat (buffer_ms_ st / cadenceMs).

(** Modelled from the spec: the overrun policy, whose code is outside
    [peer_connection.h]: while the queue holds more than [bound] frames the
    oldest goes, so a dropped frame is never converted. *)
Fixpoint dropOldest (bound : nat) (frames : list Frame) : list Frame :=
  match frames with
  | [] => []
  | f :: rest => if (bound <? length frames)%nat then dropOldest bound rest else frames
  end.

(** Modelled from the spec: [audioFrameCallback] (the spec's [pushFrame]),
    declared in [peer_connection.h], body elsewhere.  A queue over its bound
    triggers the drop policy; the new frame goes to the tail. *)
Definition audioFrameCallback (st : Stream) (audio : list Byte.byte)
    (bits rate channels count : Z) : Stream :=
  {| frames_ := dropOldest (horizonFrames st) (frames_ st)
                ++ [ {| audio_data := audio; bits_per_sample := bits;
                        sample_rate := rate; number_of_channels := channels;
                        number_of_frames := count |} ];
     buffer_ms_ := buffer_ms_ st;
     sinwave_iter_ := sinwave_iter_ st;
     buffer_ := buffer_ st |}.

Definition pushFrame (st : Stream) (f : Frame) : Stream :=
  audioFrameCallback st (audio_data f) (bits_per_sample f) (sample_rate f)
    (number_of_channels f) (number_of_frames f).

(** The engine delivering the frames [fs] one after the other, oldest first,
    with no [Read] in between. *)
Definition pushFrames (st : Stream) (fs : list Frame) : Stream :=
  fold_left pushFrame fs st.

(** Modelled from the spec: [Buffer::addFrame], declared in
    [peer_connection.h], body elsewhere.  The frame is converted to the
    requested rate and channel count and appended. *)
Definition addFrame (b : Buffer) (frame : Frame) (dstSampleRate dstChannels : Z)
  : Buffer :=
  {| data_ := data_ b ++ resample frame dstSampleRate dstChannels;
     used_ := used_ b;
     channels_ := dstChannels;
     rate_ := dstSampleRate |}.

(** Modelled from the spec: the refill step of [Read], whose body is
    outside [peer_connection.h].  While fewer than [dataLen] samples are
    unread, the oldest raw frame is taken off the queue, converted and
    appended. *)
Fixpoint refill (sampleRate numChannels dataLen : Z)
    (frames : list Frame) (b : Buffer) : list Frame * Buffer :=
  match frames with
  | [] => ([], b)
  | f :: rest =>
      if available b <? dataLen
      then refill sampleRate numChannels dataLen rest
             (addFrame b f sampleRate numChannels)
      else (frames, b)
  end.

(** [count] samples of filler, starting at phase [from]. *)
Definition fillerBlock (from : Z) (count : nat) : list float :=
  map (fun i => filler (from + Z.of_nat i)) (seq 0 count).

(** Modelled from the spec: the working buffer of a read holds samples
    already converted to the rate and channel count of that read, and
    conversion is per request.  Samples converted for another rate or
    channel count are therefore not drained: the buffer is emptied and takes
    the format of the request. *)
Definition retarget (b : Buffer) (sampleRate numChannels : Z) : Buffer :=
  if (rate_ b =? sampleRate) && (channels_ b =? numChannels) then b
  else {| data_ := []; used_ := 0; channels_ := numChannels; rate_ := sampleRate |}.

(** Modelled from the spec: [AudioReadStream::Read], declared in
    [peer_connection.h], body elsewhere.  [data] is the caller's array.
    The working buffer is brought to the requested format and refilled from
    the queue, then [readSome]; what [readSome] could not deliver is written
    as filler.  [None] when an array is left. *)
Definition Read (st : Stream) (sampleRate : Z) (data : list float)
    (dataLen numChannels : Z) : option (Stream * list float) :=
  let '(frames', b) :=
    refill sampleRate numChannels dataLen (frames_ st)
      (retarget (buffer_ st) sampleRate numChannels) in
  match readSome b data dataLen with
  | Some (take, data', b') =>
      if dataLen <=? Z.of_nat (length data') then
        let missing := Z.to_nat (dataLen - take) in
        Some ({| frames_ := frames';
                 buffer_ms_ := buffer_ms_ st;
                 sinwave_iter_ := to_int (sinwave_iter_ st + Z.of_nat missing);
                 buffer_ := b' |},
              firstn (Z.to_nat take) data'
              ++ fillerBlock (sinwave_iter_ st) missing
              ++ skipn (Z.to_nat dataLen) data')
      else None
  | None => None
  end.

(** The samples a queue of raw frames turns into, oldest first. *)
Definition resampled (sampleRate numChannels : Z) (frames : list Frame)
  : list float :=
  concat (map (fun f => resample f sampleRate numChannels) frames).

(** The working buffer holds the samples the frames [held] turn into at the
    buffer's own rate and channel count, and nothing else. *)
Definition converted (b : Buffer) (held : list Frame) : Prop :=
  data_ b = resampled (rate_ b) (channels_ b) held.

End Adapter.

(** Test data: a converter that yields one unit sample per byte of the raw
    frame, a constant filler, and a frame of [n] bytes tagged by its rate. *)
Definition unit_resample (f : Frame) (_ _ : Z) : list float :=
  map (fun _ => 1%float) (audio_data f).

Definition flat_filler (_ : Z) : float := 0.25%float.

(** A converter whose samples tell the rate they were made for: one sample
    per byte of the raw frame, 1 at 48 kHz and 0.5 at any other rate. *)
Definition keyed_resample (f : Frame) (sampleRate _ : Z) : list float :=
  map (fun _ => if sampleRate =? 48000 then 1%float else 0.5%float) (audio_data f).

Definition test_frame (n : nat) (rate : Z) : Frame :=
  {| audio_data := repeat Byte.x00 n; bits_per_sample := 8;
     sample_rate := rate; number_of_channels := 1;
     number_of_frames := Z.of_nat n |}.

End AudioReadStream.

(* ===================================================================== *)
(** * Part II b.  global_factory.cpp: the audio device probe               *)
(* ===================================================================== *)

Module DeviceProbe.

(** A [std::wstring] is the list of its [wchar_t], 16 bits each on the
    platform of [mmdeviceapi.h]. *)

(** [tolower] in the "C" locale, the one a program starts in. *)
Definition tolower (c : Z) : Z :=
  if (65 <=? c) && (c <=? 90) then c + 32 else c.

(** The lambda [[](unsigned char c) { return tolower(c); }] applied to a
    [wchar_t]: the argument is narrowed to [unsigned char], the [int] result
    is stored back as a [wchar_t]. *)
Definition lower (c : Z) : Z := tolower (c mod 256) mod 2 ^ 16.

Fixpoint starts_with (sub s : list Z) : bool :=
  match sub, s with
  | [], _ => true
  | c :: sub', d :: s' => (c =? d) && starts_with sub' s'
  | _ :: _, [] => false
  end.

(** [s.find(sub)] from position [pos] on, [s] being what is left of the
    string from there; [None] is [npos]. *)
Fixpoint find_from (s sub : list Z) (pos : nat) : option nat :=
  if starts_with sub s then Some pos
  else match s with
       | [] => None
       | _ :: s' => find_from s' sub (S pos)
       end.

Definition find (s sub : list Z) : option nat := find_from s sub 0.

(** [icontains] *)
Definition icontains (str substr : list Z) : bool :=
  let str := map lower str in
  let substr := map lower substr in
  match find str substr with
  | Some _ => true
  | None => false
  end.

(** [FAILED(hr)] on a 32-bit [HRESULT] *)
Definition FAILED (hr : Z) : bool := hr <? 0.

Inductive EDataFlow : Set := eRender | eCapture | eAll.

(** What the audio system answers for one endpoint of the collection: the
    [HRESULT] of [Item], [GetId], [OpenPropertyStore] and [GetValue], and the
    friendly name [varName.pwszVal] ([None] when null). *)
Record Endpoint : Type := {
  Item_hr : Z;
  GetId_hr : Z;
  OpenPropertyStore_hr : Z;
  GetValue_hr : Z;
  pwszVal : option (list Z)
}.

(** What the audio system answers for a data flow: the [HRESULT] of
    [CoCreateInstance], [EnumAudioEndpoints] and [GetCount], and the active
    endpoints, [GetCount] reporting their number. *)
Record AudioSystem : Type := {
  CoCreateInstance_hr : Z;
  EnumAudioEndpoints_hr : EDataFlow -> Z;
  GetCount_hr : EDataFlow -> Z;
  endpoints : EDataFlow -> list Endpoint
}.

(** What a call hands over to the caller when it succeeds: a COM interface
    to [Release], or memory to [CoTaskMemFree].  A call that fails leaves the
    pointer as it was. *)
Inductive resource : Set :=
| Enumerator
| Collection
| EndpointOf (i : nat)
| PropsOf (i : nat)
| IdOf (i : nat).

#[global] Instance resource_eq_dec : EqDecision resource.
Proof. solve_decision. Defined.

Inductive api : Set :=
| CoCreateInstance
| EnumAudioEndpoints
| GetCount
| Item (i : nat)
| GetId (i : nat)
| OpenPropertyStore (i : nat)
| GetValue (i : nat).

Inductive debug : Type :=
| DebugError (hr : Z) (line : Z)      (* the text built by EXIT_ON_ERROR *)
| DebugNoEndpoints                    (* "No endpoints found." *)
| DebugFound (name : list Z)          (* "Found matching device: " + name *)
| DebugErrorTesting.                  (* "Error testing audio!" *)

(** What the function does that can be observed from outside, in order. *)
Inductive event : Type :=
| Called (what : api) (hr : Z)
| Released (r : resource)
| VariantCleared (i : nat)
| Debug (msg : debug).

(** [SAFE_RELEASE(punk)], and [CoTaskMemFree] of a pointer that may be
    null. *)
Definition SAFE_RELEASE (punk : option resource) : list event :=
  match punk with
  | Some r => [Released r]
  | None => []
  end.

(** [EXIT_ON_ERROR(hr)] taken at [line], followed by the code at [Exit:],
    with the five pointers as they are at the jump. *)
Definition Exit (hr line : Z)
    (pwszID pEnumerator pCollection pEndpoint pProps : option resource)
  : list event :=
  [Debug (DebugError hr line); Debug DebugErrorTesting]
  ++ SAFE_RELEASE pwszID
  ++ SAFE_RELEASE pEnumerator ++ SAFE_RELEASE pCollection
  ++ SAFE_RELEASE pEndpoint ++ SAFE_RELEASE pProps.

(** The inner loop over [devices]: the first device the name contains, if
    any. *)
Fixpoint first_match (name : list Z) (devices : list (list Z)) : bool :=
  match devices with
  | [] => false
  | d :: rest => if icontains name d then true else first_match name rest
  end.

(** The body of the loop for endpoint [i] when all four calls succeed:
    whether a device matched. *)
Definition matches (ep : Endpoint) (devices : list (list Z)) : bool :=
  match pwszVal ep with
  | Some name => first_match name devices
  | None => false
  end.

(** The outer loop from index [i] on, entered with [found = false];
    [Some found] when the loop ends, [None] when it left through [Exit]. *)
Fixpoint loop (devices : list (list Z)) (i : nat) (eps : list Endpoint)
  : option bool * list event :=
  match eps with
  | [] => (Some false, [])
  | ep :: rest =>
      if FAILED (Item_hr ep) then
        (None, Called (Item i) (Item_hr ep)
               :: Exit (Item_hr ep) 247 None (Some Enumerator) (Some Collection) None None)
      else if FAILED (GetId_hr ep) then
        (None, [Called (Item i) (Item_hr ep); Called (GetId i) (GetId_hr ep)]
               ++ Exit (GetId_hr ep) 250 None (Some Enumerator) (Some Collection)
                    (Some (EndpointOf i)) None)
      else if FAILED (OpenPropertyStore_hr ep) then
        (None, [Called (Item i) (Item_hr ep); Called (GetId i) (GetId_hr ep);
                Called (OpenPropertyStore i) (OpenPropertyStore_hr ep)]
               ++ Exit (OpenPropertyStore_hr ep) 252 (Some (IdOf i)) (Some Enumerator)
                    (Some Collection) (Some (EndpointOf i)) None)
      else if FAILED (GetValue_hr ep) then
        (None, [Called (Item i) (Item_hr ep); Called (GetId i) (GetId_hr ep);
                Called (OpenPropertyStore i) (OpenPropertyStore_hr ep);
                Called (GetValue i) (GetValue_hr ep)]
               ++ Exit (GetValue_hr ep) 258 (Some (IdOf i)) (Some Enumerator)
                    (Some Collection) (Some (EndpointOf i)) (Some (PropsOf i)))
      else
        let found := matches ep devices in
        let body :=
          [Called (Item i) (Item_hr ep); Called (GetId i) (GetId_hr ep);
           Called (OpenPropertyStore i) (OpenPropertyStore_hr ep);
           Called (GetValue i) (GetValue_hr ep)]
          ++ (if found then
                match pwszVal ep with
                | Some name => [Debug (DebugFound name)]
                | None => []
                end
              else [])
          ++ [Released (IdOf i); VariantCleared i;
              Released (PropsOf i); Released (EndpointOf i)] in
        if found then (Some true, body)
        else
          let '(r, tr) := loop devices (S i) rest in
          (r, body ++ tr)
  end.

(** [IsDeviceConnected]: the value returned and what was done on the way. *)
Definition IsDeviceConnected (sys : AudioSystem) (flow : EDataFlow)
    (devices : list (list Z)) : bool * list event :=
  let hr := CoCreateInstance_hr sys in
  if FAILED hr then
    (false, Called CoCreateInstance hr :: Exit hr 234 None None None None None)
  else
    let hr2 := EnumAudioEndpoints_hr sys flow in
    if FAILED hr2 then
      (false, [Called CoCreateInstance hr; Called EnumAudioEndpoints hr2]
              ++ Exit hr2 237 None (Some Enumerator) None None None)
    else
      let hr3 := GetCount_hr sys flow in
      if FAILED hr3 then
        (false, [Called CoCreateInstance hr; Called EnumAudioEndpoints hr2;
                 Called GetCount hr3]
                ++ Exit hr3 240 None (Some Enumerator) (Some Collection) None None)
      else
        let eps := endpoints sys flow in
        let head :=
          [Called CoCreateInstance hr; Called EnumAudioEndpoints hr2;
           Called GetCount hr3]
          ++ (if (length eps =? 0)%nat then [Debug DebugNoEndpoints] else []) in
        match loop devices 0 eps with
        | (Some found, tr) =>
            (found, head ++ tr ++ [Released Enumerator; Released Collection])
        | (None, tr) => (false, head ++ tr)
        end.

(** What a successful call hands over. *)
Definition acquired (what : api) : option resource :=
  match what with
  | CoCreateInstance => Some Enumerator
  | EnumAudioEndpoints => Some Collection
  | GetCount => None
  | Item i => Some (EndpointOf i)
  | GetId i => Some (IdOf i)
  | OpenPropertyStore i => Some (PropsOf i)
  | GetValue _ => None
  end.

Fixpoint remove_one (r : resource) (held : list resource) : option (list resource) :=
  match held with
  | [] => None
  | h :: rest =>
      if decide (h = r) then Some rest
      else match remove_one r rest with
           | Some rest' => Some (h :: rest')
           | None => None
           end
  end.

(** The resources held after a run of events, starting from [held]; [None]
    when something is released that is not held. *)
Fixpoint ledger (tr : list event) (held : list resource) : option (list resource) :=
  match tr with
  | [] => Some held
  | Called what hr :: tr' =>
      match acquired what with
      | Some r => if FAILED hr then ledger tr' held else ledger tr' (r :: held)
      | None => ledger tr' held
      end
  | Released r :: tr' =>
      match remove_one r held with
      | Some held' => ledger tr' held'
      | None => None
      end
  | _ :: tr' => ledger tr' held
  end.

(** An endpoint all four calls succeed on. *)
Definition endpoint_ok (ep : Endpoint) : bool :=
  negb (FAILED (Item_hr ep)) && negb (FAILED (GetId_hr ep))
  && negb (FAILED (OpenPropertyStore_hr ep)) && negb (FAILED (GetValue_hr ep)).

(** The calls made on endpoints, by index. *)
Definition endpoint_index (e : event) : option nat :=
  match e with
  | Called (Item i) _ | Called (GetId i) _
  | Called (OpenPropertyStore i) _ | Called (GetValue i) _ => Some i
  | _ => None
  end.

(** Swapping the case of an ASCII letter. *)
Definition swapcase (c : Z) : Z :=
  if (65 <=? c) && (c <=? 90) then c + 32
  else if (97 <=? c) && (c <=? 122) then c - 32
  else c.

(** Two characters the lambda of [icontains] cannot tell apart: the same
    low byte, or low bytes that are the two cases of one ASCII letter. *)
Definition alike (c d : Z) : Prop :=
  d mod 256 = c mod 256 \/ d mod 256 = swapcase (c mod 256).

(** The first endpoint that matches is at [k], and every endpoint before it
    was queried without an error and did not match. *)
Definition first_hit (devices : list (list Z)) (eps : list Endpoint) (k : nat) : Prop :=
  (exists ep, eps !! k = Some ep /\ endpoint_ok ep = true /\ matches ep devices = true) /\
  forall j epj, (j < k)%nat -> eps !! j = Some epj ->
    endpoint_ok epj = true /\ matches epj devices = false.

(** The three calls before the loop all succeed. *)
Definition setup_ok (sys : AudioSystem) (flow : EDataFlow) : bool :=
  negb (FAILED (CoCreateInstance_hr sys))
  && negb (FAILED (EnumAudioEndpoints_hr sys flow))
  && negb (FAILED (GetCount_hr sys flow)).

End DeviceProbe.

(* ===================================================================== *)
(** * Part II c.  global_factory.cpp: PumpSourcesAndDiscardMixer           *)
(* ===================================================================== *)

Module PumpSourcesAndDiscardMixer.

(** How a method ends: it returns, an [RTC_DCHECK] fails (builds with
    [RTC_DCHECK_IS_ON]), or the behaviour is undefined. *)
Inductive result (A : Type) : Type :=
| Ok (a : A)
| Fatal
| Undefined.

Arguments Ok {A} a.
Arguments Fatal {A}.
Arguments Undefined {A}.

(** [audio_source_list_]: the sources by address, in the order of the
    vector.  A null pointer is 0. *)
Definition Mixer : Type := list N.

Fixpoint member (x : N) (l : list N) : bool :=
  match l with
  | [] => false
  | y :: rest => (x =? y)%N || member x rest
  end.

(** [vector::erase(std::find(begin, end, x))] for an [x] that is found. *)
Fixpoint erase_first (x : N) (l : list N) : list N :=
  match l with
  | [] => []
  | y :: rest => if (x =? y)%N then rest else y :: erase_first x rest
  end.

Section Checks.

(** Whether [RTC_DCHECK] is compiled in. *)
Variable RTC_DCHECK_IS_ON : bool.

(** [AddSource] *)
Definition AddSource (audio_source : N) (m : Mixer) : result (bool * Mixer) :=
  if RTC_DCHECK_IS_ON && (audio_source =? 0)%N then Fatal
  else if RTC_DCHECK_IS_ON && member audio_source m then Fatal
  else Ok (true, m ++ [audio_source]).

(** [RemoveSource]; erasing [end()] is undefined. *)
Definition RemoveSource (audio_source : N) (m : Mixer) : result Mixer :=
  if RTC_DCHECK_IS_ON && (audio_source =? 0)%N then Fatal
  else if member audio_source m then Ok (erase_first audio_source m)
  else if RTC_DCHECK_IS_ON then Fatal
  else Undefined.

End Checks.

Inductive AudioFrameInfo : Set := kNormal | kMuted | kError.

(** What the sources answer: [PreferredSampleRate()] and
    [GetAudioFrameWithInfo(rate, frame)]. *)
Record Sources : Type := {
  PreferredSampleRate : N -> Z;
  GetAudioFrameWithInfo : N -> Z -> AudioFrameInfo
}.

(** The arguments of the final [UpdateFrame], apart from the constant
    speech type and activity: time stamp, the number of zero samples offered
    ([zerobuf] has 200), samples per channel, rate, channels. *)
Record Update : Type := {
  timestamp : Z;
  zerobuf_size : Z;
  samples_per_channel : Z;
  sample_rate_hz : Z;
  num_channels : Z
}.

(** The loop of [Mix] from its entry [sources] on, with the sources pumped
    so far (each with the rate it was asked at, in order) and the number of
    warnings logged so far.  [source->PreferredSampleRate()] dereferences the
    entry: a null one is undefined behaviour. *)
Fixpoint pump (env : Sources) (sources : list N) (pumped : list (N * Z))
    (warnings : nat) : result (list (N * Z) * nat) :=
  match sources with
  | [] => Ok (pumped, warnings)
  | source :: rest =>
      if (source =? 0)%N then Undefined
      else
        let rate := PreferredSampleRate env source in
        match GetAudioFrameWithInfo env source rate with
        | kError => pump env rest (pumped ++ [(source, rate)]) (S warnings)
        | _ => pump env rest (pumped ++ [(source, rate)]) warnings
        end
  end.

(** [Mix]: the sources pumped, in order, each with the rate it was asked
    at; the number of warnings logged; the final [UpdateFrame], which
    dereferences [audio_frame_for_mixing] (an address, 0 for null). *)
Definition Mix (env : Sources) (number_of_channels : Z)
    (audio_frame_for_mixing : N) (m : Mixer)
  : result (list (N * Z) * nat * Update) :=
  match pump env m [] 0 with
  | Ok (pumped, warnings) =>
      if (audio_frame_for_mixing =? 0)%N then Undefined
      else
        Ok (pumped, warnings,
            {| timestamp := 0; zerobuf_size := 200; samples_per_channel := 80;
               sample_rate_hz := 8000; num_channels := number_of_channels |})
  | Fatal => Fatal
  | Undefined => Undefined
  end.

End PumpSourcesAndDiscardMixer.

(* ===================================================================== *)
(** * Part III.  Properties of the global factory                          *)
(* ===================================================================== *)

Section GlobalFactoryFacts.

Import GlobalFactory.

Ltac unfold_m :=
  unfold mbind, M_bind, mret, M_ret, getState, modifyState, throw, abort,
    RTC_CHECK, try_catch_all in *.

Lemma Initialize_eq WINUWP engine a s :
  factory_ s = None ->
  Initialize WINUWP engine a s =
    if WINUWP then
      if isSome (impl_ s) then Aborts
      else if a then Returns kWrongThread (tick_init s)
      else Returns (if factory_built true engine (init_runs s)
                    then kSuccess else kUnknownError)
                   (initialized true engine s)
    else
      if threads_built engine (init_runs s) then
        Returns (if factory_built false engine (init_runs s)
                 then kSuccess else kUnknownError)
                (initialized false engine s)
      else Aborts.
Proof.
  intros Hf. unfold Initialize, initialized, factory_built, threads_built, create_thread.
  unfold_m. rewrite Hf. simpl.
  destruct WINUWP.
  - destruct (impl_ s); simpl; [reflexivity|].
    destruct a; [reflexivity|].
    destruct (peerConnectionFactory engine (init_runs s)); reflexivity.
  - destruct (Thread_Create engine Network (init_runs s)); simpl; [|reflexivity].
    destruct (Thread_Create engine Worker (init_runs s)); simpl; [|reflexivity].
    destruct (Thread_Create engine Signaling (init_runs s)); simpl; [|reflexivity].
    destruct (CreatePeerConnectionFactory engine (init_runs s)); reflexivity.
Qed.

Lemma Initialize_factory_present WINUWP engine a s :
  is_Some (factory_ s) -> Initialize WINUWP engine a s = Aborts.
Proof.
  intros [f Hf]. unfold Initialize. unfold_m. rewrite Hf. reflexivity.
Qed.

Lemma ShutdownNoLock_eq WINUWP s :
  ShutdownNoLock WINUWP s = Returns tt (shut_down WINUWP s).
Proof. unfold ShutdownNoLock, shut_down. unfold_m. destruct WINUWP; reflexivity. Qed.

Lemma RemoveObject_eq WINUWP type obj s :
  RemoveObject WINUWP type obj s =
    match alive_objects_ s !! obj with
    | None => Returns tt s
    | Some k =>
        if bool_decide (k = type) then
          let s1 := set_alive_objects_ (delete obj (alive_objects_ s)) s in
          if decide (alive_objects_ s1 = ∅)
          then Returns tt (shut_down WINUWP s1)
          else Returns tt s1
        else Aborts
    end.
Proof.
  unfold RemoveObject. unfold_m.
  destruct (alive_objects_ s !! obj) as [k|]; [|reflexivity].
  destruct (bool_decide (k = type)); [|reflexivity].
  simpl. destruct (decide _); [|reflexivity].
  rewrite ShutdownNoLock_eq. reflexivity.
Qed.

Lemma AddObject_eq bad_alloc type obj s :
  AddObject bad_alloc type obj s =
    Returns tt
      (if bad_alloc then s
       else match alive_objects_ s !! obj with
            | Some _ => s
            | None => set_alive_objects_ (<[obj := type]> (alive_objects_ s)) s
            end).
Proof. unfold AddObject, emplace. unfold_m. destruct bad_alloc; reflexivity. Qed.

Lemma GetOrCreate_present WINUWP engine a s f :
  factory_ s = Some f -> GetOrCreate WINUWP engine a s = Returns (Some f) s.
Proof. intros Hf. unfold GetOrCreate. unfold_m. rewrite Hf. reflexivity. Qed.

Lemma GetOrCreate_absent WINUWP engine a s :
  factory_ s = None ->
  GetOrCreate WINUWP engine a s =
    match Initialize WINUWP engine a s with
    | Returns res s' =>
        if decide (res <> kSuccess) then Returns None s' else Returns (factory_ s') s'
    | Throws s' => Throws s'
    | Aborts => Aborts
    end.
Proof.
  intros Hf. unfold GetOrCreate. unfold_m. rewrite Hf. simpl.
  destruct (Initialize WINUWP engine a s) as [res s'| |]; try reflexivity.
  destruct (decide _); reflexivity.
Qed.

Lemma GetOrCreate_ref_present WINUWP engine a f0 s f :
  factory_ s = Some f ->
  GetOrCreate_ref WINUWP engine a f0 s = Returns (kSuccess, Some f) s.
Proof. intros Hf. unfold GetOrCreate_ref. unfold_m. rewrite Hf. reflexivity. Qed.

Lemma GetOrCreate_ref_absent WINUWP engine a f0 s :
  factory_ s = None ->
  GetOrCreate_ref WINUWP engine a f0 s =
    match Initialize WINUWP engine a s with
    | Returns res s' =>
        if decide (res <> kSuccess) then Returns (res, None) s'
        else Returns (if isSome (factory_ s') then kSuccess else kUnknownError,
                      factory_ s') s'
    | Throws s' => Throws s'
    | Aborts => Aborts
    end.
Proof.
  intros Hf. unfold GetOrCreate_ref. unfold_m. rewrite Hf. simpl.
  destruct (Initialize WINUWP engine a s) as [res s'| |]; try reflexivity.
  destruct (decide _); reflexivity.
Qed.

Ltac inv_unfold :=
  unfold inv, build_members, handles_counted, threads_present, threads_absent,
    shut_down, initialized, is_Some in *; simpl in *.

Lemma initial_inv WINUWP : inv WINUWP initial.
Proof. inv_unfold. destruct WINUWP; naive_solver. Qed.

Lemma shut_down_inv WINUWP s : inv WINUWP s -> inv WINUWP (shut_down WINUWP s).
Proof. inv_unfold. destruct WINUWP; simpl; naive_solver. Qed.

Lemma Initialize_inv WINUWP engine a s res s' :
  inv WINUWP s ->
  Initialize WINUWP engine a s = Returns res s' ->
  inv WINUWP s' /\ init_runs s' = S (init_runs s) /\
  shutdown_runs s' = shutdown_runs s /\ alive_objects_ s' = alive_objects_ s.
Proof.
  intros Hi H.
  destruct (factory_ s) as [f|] eqn:Ef.
  { rewrite Initialize_factory_present in H by (rewrite Ef; eauto). discriminate. }
  rewrite Initialize_eq in H by assumption.
  destruct WINUWP.
  - destruct (impl_ s) as [i|] eqn:Ei; simpl in H; [discriminate|].
    destruct a; inversion H; subst; clear H.
    + inv_unfold. rewrite Ef, Ei. naive_solver lia.
    + inv_unfold. destruct (peerConnectionFactory engine (init_runs s));
        simpl; naive_solver lia.
  - destruct (threads_built engine (init_runs s)); [|discriminate].
    inversion H; subst; clear H.
    inv_unfold. destruct (CreatePeerConnectionFactory engine (init_runs s));
      simpl; naive_solver lia.
Qed.

Lemma get_eq WINUWP engine a s :
  get WINUWP engine a s =
    if isSome (impl_ s) then Returns (impl_ s) s
    else match Initialize WINUWP engine a s with
         | Returns res s' =>
             if decide (res <> kSuccess) then Returns None s' else Returns (impl_ s') s'
         | Throws s' => Throws s'
         | Aborts => Aborts
         end.
Proof.
  unfold get. unfold_m. destruct (isSome (impl_ s)); simpl; [reflexivity|].
  destruct (Initialize WINUWP engine a s) as [res s'| |]; try reflexivity.
  destruct (decide _); reflexivity.
Qed.

Lemma GetOrCreateWebRtcFactory_eq WINUWP engine a i0 s :
  GetOrCreateWebRtcFactory WINUWP engine a i0 s =
    if isSome (impl_ s) then Returns (kSuccess, impl_ s) s
    else match Initialize WINUWP engine a s with
         | Returns res s' =>
             if decide (res <> kSuccess) then Returns (res, None) s'
             else Returns (if isSome (impl_ s') then kSuccess else kUnknownError,
                           impl_ s') s'
         | Throws s' => Throws s'
         | Aborts => Aborts
         end.
Proof.
  unfold GetOrCreateWebRtcFactory. unfold_m.
  destruct (isSome (impl_ s)) eqn:E; simpl; [reflexivity|].
  destruct (Initialize WINUWP engine a s) as [res s'| |]; try reflexivity.
  destruct (decide _); reflexivity.
Qed.

Lemma perform_effect WINUWP engine c s r s' :
  perform WINUWP engine c s = Returns r s' -> effect WINUWP engine s s'.
Proof.
  destruct c as [a|a f0| | |e type obj|type obj|a|a i0]; simpl;
    unfold mbind, M_bind, mret, M_ret.
  - destruct (factory_ s) as [f|] eqn:Ef.
    + rewrite (GetOrCreate_present _ _ _ _ _ Ef). intros H; inversion H; constructor.
    + rewrite (GetOrCreate_absent _ _ _ _ Ef).
      destruct (Initialize WINUWP engine a s) as [res s1| |] eqn:Ei; try discriminate.
      destruct (decide _); intros H; inversion H; subst; econstructor 2; eauto.
  - destruct (factory_ s) as [f|] eqn:Ef.
    + rewrite (GetOrCreate_ref_present _ _ _ _ _ _ Ef). intros H; inversion H; constructor.
    + rewrite (GetOrCreate_ref_absent _ _ _ _ _ Ef).
      destruct (Initialize WINUWP engine a s) as [res s1| |] eqn:Ei; try discriminate.
      destruct (decide _); intros H; inversion H; subst; econstructor 2; eauto.
  - unfold GetExisting. unfold_m. intros H; inversion H; constructor.
  - unfold GetWorkerThread. unfold_m. destruct WINUWP.
    + destruct (impl_ s) as [[run]|]; intros H; inversion H; constructor.
    + intros H; inversion H; constructor.
  - rewrite AddObject_eq. intros H; inversion H; subst; clear H.
    destruct e; [constructor|].
    destruct (alive_objects_ s !! obj); constructor.
  - rewrite RemoveObject_eq.
    destruct (alive_objects_ s !! obj) as [k|].
    + destruct (bool_decide (k = type)); [|discriminate]. simpl.
      destruct (decide _); intros H; inversion H; constructor.
    + intros H; inversion H; constructor.
  - rewrite get_eq. destruct (isSome (impl_ s)).
    + intros H; inversion H; constructor.
    + destruct (Initialize WINUWP engine a s) as [res s1| |] eqn:Ei; try discriminate.
      destruct (decide _); intros H; inversion H; subst; econstructor 2; eauto.
  - rewrite GetOrCreateWebRtcFactory_eq. destruct (isSome (impl_ s)).
    + intros H; inversion H; constructor.
    + destruct (Initialize WINUWP engine a s) as [res s1| |] eqn:Ei; try discriminate.
      destruct (decide _); intros H; inversion H; subst; econstructor 2; eauto.
Qed.

Lemma effect_inv WINUWP engine s s' :
  effect WINUWP engine s s' -> inv WINUWP s -> inv WINUWP s'.
Proof.
  intros [|a res s1 Hi|m|m] Hinv.
  - assumption.
  - eapply Initialize_inv; eauto.
  - exact Hinv.
  - apply shut_down_inv. exact Hinv.
Qed.

Lemma effect_shutdown_runs WINUWP engine s s' :
  effect WINUWP engine s s' -> (shutdown_runs s <= shutdown_runs s')%nat.
Proof.
  intros [|a res s1 Hi|m|m].
  - lia.
  - destruct (factory_ s) as [f|] eqn:Ef.
    { rewrite Initialize_factory_present in Hi by (rewrite Ef; eauto). discriminate. }
    rewrite Initialize_eq in Hi by assumption.
    destruct WINUWP.
    + destruct (isSome (impl_ s)); [discriminate|].
      destruct a; inversion Hi; subst; simpl; lia.
    + destruct (threads_built engine (init_runs s)); [|discriminate].
      inversion Hi; subst; simpl; lia.
  - simpl. lia.
  - unfold shut_down. destruct WINUWP; simpl; lia.
Qed.

Lemma perform_all_inv WINUWP engine cs : forall s rs s',
  perform_all WINUWP engine cs s = Returns rs s' ->
  inv WINUWP s -> inv WINUWP s'.
Proof.
  induction cs as [|c cs IH]; intros s rs s'; simpl;
    unfold mbind, M_bind, mret, M_ret.
  - intros H; inversion H; subst; auto.
  - destruct (perform WINUWP engine c s) as [r s1| |] eqn:Ep; try discriminate.
    destruct (perform_all WINUWP engine cs s1) as [rs1 s2| |] eqn:Ea; try discriminate.
    intros H Hinv; inversion H; subst.
    eapply IH; eauto. eapply effect_inv; eauto. eapply perform_effect; eauto.
Qed.

(** Every state a client can bring about satisfies [inv]. *)
Lemma reachable_inv WINUWP engine s : reachable WINUWP engine s -> inv WINUWP s.
Proof.
  intros (cs & rs & _ & H). eapply perform_all_inv; eauto. apply initial_inv.
Qed.

Lemma log_lines_eq (entries : list (N * ObjectType)) s :
  log_lines entries s =
    if existsb (fun entry => (fst entry =? 0)%N) entries then Aborts
    else Returns tt s.
Proof.
  induction entries as [|[obj type] rest IH]; [reflexivity|].
  cbn [log_lines existsb fst]. unfold log_line. cbn [fst]. unfold_m.
  destruct (decide (obj = 0%N)) as [->|Hne].
  - reflexivity.
  - apply N.eqb_neq in Hne. rewrite Hne. cbn [orb]. exact IH.
Qed.

Lemma Destructor_eq WINUWP s :
  Destructor WINUWP s =
    let leaked := if decide (alive_objects_ s = ∅) then []
                  else map_to_list (alive_objects_ s) in
    if existsb (fun entry => (fst entry =? 0)%N) leaked then Aborts
    else Returns leaked (shut_down WINUWP s).
Proof.
  unfold Destructor. cbn zeta. unfold mbind, M_bind, getState.
  rewrite log_lines_eq.
  destruct (existsb _ _); [reflexivity|].
  unfold_m. rewrite ShutdownNoLock_eq. reflexivity.
Qed.

Example ObjectTypeToString_values :
  map ObjectTypeToString
    [kPeerConnection; kLocalVideoTrack; kExternalVideoTrackSource]
  = ["PeerConnection"; "LocalVideoTrack"; "ExternalVideoTrackSource"]%string.
Proof. reflexivity. Qed.

(** ** Removal of tracked objects *)

(** C9.  [RemoveObject] on an object that is not in the alive map is a
    silent no-op for every type argument: no fatal check, the process goes
    on, and the state (alive map, factory, threads, the count of shutdowns)
    is the one before the call. *)
Theorem RemoveObject_untracked_noop WINUWP type obj s :
  alive_objects_ s !! obj = None ->
  RemoveObject WINUWP type obj s = Returns tt s.
Proof. intros H. rewrite RemoveObject_eq, H. reflexivity. Qed.

Lemma RemoveObject_untracked_noop_witness :
  alive_objects_ (set_alive_objects_ {[ 5%N := kLocalVideoTrack ]} initial) !! 7%N = None /\
  RemoveObject false kPeerConnection 7%N
    (set_alive_objects_ {[ 5%N := kLocalVideoTrack ]} initial)
  = Returns tt (set_alive_objects_ {[ 5%N := kLocalVideoTrack ]} initial).
Proof.
  split; [reflexivity|].
  apply (RemoveObject_untracked_noop false kPeerConnection 7%N); reflexivity.
Defined.

Lemma AddObject_records type obj s :
  alive_objects_ s !! obj = None ->
  exists s', AddObject false type obj s = Returns tt s' /\
             alive_objects_ s' !! obj = Some type.
Proof.
  intros H. rewrite AddObject_eq, H. eexists; split; [reflexivity|].
  simpl. apply lookup_insert_eq.
Qed.

(** C5.  For an object recorded in the alive map with type [k] (which is
    what [AddObject] records for it, see [AddObject_records]):
    [RemoveObject] with any other type fails the fatal [RTC_CHECK] and the
    process aborts; [RemoveObject] with [k] passes the check, returns and
    erases the object.  This holds for all three object types. *)
Theorem RemoveObject_kind_check WINUWP obj k s :
  alive_objects_ s !! obj = Some k ->
  (forall type, type <> k -> RemoveObject WINUWP type obj s = Aborts) /\
  (exists s', RemoveObject WINUWP k obj s = Returns tt s' /\
              alive_objects_ s' !! obj = None).
Proof.
  intros H. split.
  - intros type Hne. rewrite RemoveObject_eq, H.
    rewrite bool_decide_eq_false_2 by congruence. reflexivity.
  - rewrite RemoveObject_eq, H. rewrite bool_decide_eq_true_2 by reflexivity.
    simpl. destruct (decide _) as [He|Hne]; eexists; (split; [reflexivity|]).
    + unfold shut_down. destruct WINUWP; simpl; apply lookup_delete_eq.
    + simpl. apply lookup_delete_eq.
Qed.

Lemma RemoveObject_kind_check_witness :
  alive_objects_ (set_alive_objects_ {[ 5%N := kLocalVideoTrack ]} initial) !! 5%N
    = Some kLocalVideoTrack /\
  RemoveObject false kPeerConnection 5%N
    (set_alive_objects_ {[ 5%N := kLocalVideoTrack ]} initial) = Aborts.
Proof.
  split; [reflexivity|].
  apply (RemoveObject_kind_check false 5%N kLocalVideoTrack); [reflexivity|discriminate].
Defined.

(** C6.  [AddObject] returns normally for every object and type, whether or
    not the insertion into the alive map throws: when it throws the
    exception is swallowed and the state is untouched, otherwise the object
    is recorded unless its address already is.  It never aborts and never
    lets an exception out. *)
Theorem AddObject_never_fails bad_alloc type obj s :
  emplace true obj type s = Throws s /\
  exists s',
    AddObject bad_alloc type obj s = Returns tt s' /\
    s' = (if bad_alloc then s
          else match alive_objects_ s !! obj with
               | Some _ => s
               | None => set_alive_objects_ (<[obj := type]> (alive_objects_ s)) s
               end).
Proof.
  split; [reflexivity|].
  eexists. split; [apply AddObject_eq|reflexivity].
Qed.

(** ** Shutdown on the last removal *)

Lemma GetOrCreate_after_shutdown WINUWP engine a s :
  factory_ s = None -> impl_ s = None ->
  match GetOrCreate WINUWP engine a s with
  | Returns r s' =>
      init_runs s' = S (init_runs s) /\
      r = factory_ s' /\
      r = (if WINUWP && a then None
           else if factory_built WINUWP engine (init_runs s)
                then Some (FactoryOf (init_runs s)) else None)
  | Throws _ => False
  | Aborts => WINUWP = false /\ threads_built engine (init_runs s) = false
  end.
Proof.
  intros Hf Hi. rewrite GetOrCreate_absent, Initialize_eq by assumption.
  rewrite Hi. simpl. destruct WINUWP; simpl.
  - destruct a; simpl; [auto|].
    unfold initialized, factory_built.
    destruct (peerConnectionFactory engine (init_runs s)); simpl; auto.
  - destruct (threads_built engine (init_runs s)); [|auto].
    unfold initialized, factory_built.
    destruct (CreatePeerConnectionFactory engine (init_runs s)); simpl; auto.
Qed.

(** C1.  When a call of [RemoveObject] removes the last element of the alive
    map (the map is not empty before the call and is empty when the call
    returns), the state the call returns in is [Uninitialized]: the factory
    handle is null and the threads are gone, [ShutdownNoLock] having run
    once inside the call.  A following [GetOrCreate] does not hand out the
    prior handle: it runs [Initialize] once more, and what it returns is
    what that run built (a handle of the new run, different from the one
    held before, or null when the run failed); it can only abort when a
    thread construction of the new run yields null. *)
Theorem last_removal_shuts_down WINUWP engine type obj s s' :
  build_members WINUWP s ->
  handles_counted s ->
  alive_objects_ s <> ∅ ->
  RemoveObject WINUWP type obj s = Returns tt s' ->
  alive_objects_ s' = ∅ ->
  Uninitialized s' /\
  shutdown_runs s' = S (shutdown_runs s) /\
  init_runs s' = init_runs s /\
  forall a,
    match GetOrCreate WINUWP engine a s' with
    | Returns r s'' =>
        init_runs s'' = S (init_runs s') /\
        r = factory_ s'' /\
        r = (if WINUWP && a then None
             else if factory_built WINUWP engine (init_runs s')
                  then Some (FactoryOf (init_runs s')) else None) /\
        (is_Some r -> r <> factory_ s)
    | Throws _ => False
    | Aborts => WINUWP = false /\ threads_built engine (init_runs s') = false
    end.
Proof.
  intros Hb Hc Hne Hrm Hemp.
  rewrite RemoveObject_eq in Hrm.
  destruct (alive_objects_ s !! obj) as [k|] eqn:Ek.
  2:{ inversion Hrm; subst. contradiction. }
  destruct (bool_decide (k = type)); [|discriminate].
  simpl in Hrm. destruct (decide _) as [He|Hn].
  2:{ inversion Hrm; subst. simpl in Hemp. contradiction. }
  inversion Hrm; subst; clear Hrm.
  assert (HU : Uninitialized (shut_down WINUWP
                (set_alive_objects_ (delete obj (alive_objects_ s)) s))).
  { unfold Uninitialized, shut_down, build_members, threads_absent in *.
    destruct WINUWP; simpl; tauto. }
  split; [exact HU|].
  split; [unfold shut_down; destruct WINUWP; reflexivity|].
  assert (Hr : init_runs (shut_down WINUWP
                (set_alive_objects_ (delete obj (alive_objects_ s)) s)) = init_runs s).
  { unfold shut_down; destruct WINUWP; reflexivity. }
  split; [exact Hr|].
  intros a. destruct HU as (Hf & Hi & _).
  pose proof (GetOrCreate_after_shutdown WINUWP engine a _ Hf Hi) as G.
  destruct (GetOrCreate WINUWP engine a _) as [r s2| |]; [|exact G|exact G].
  destruct G as (G1 & G2 & G3). repeat split; try assumption.
  intros [f Hsome] Heq. rewrite Hr in G3.
  destruct Hc as (C1 & _).
  destruct (WINUWP && a); [rewrite G3 in Hsome; discriminate|].
  destruct (factory_built WINUWP engine (init_runs s));
    [|rewrite G3 in Hsome; discriminate].
  rewrite G3 in Heq. symmetry in Heq. apply C1 in Heq. lia.
Qed.

Lemma last_removal_shuts_down_witness :
  let s := set_alive_objects_ {[ 5%N := kPeerConnection ]}
             (initialized false engine_ok initial) in
  build_members false s /\ alive_objects_ s <> ∅ /\
  RemoveObject false kPeerConnection 5%N s
    = Returns tt (shut_down false (set_alive_objects_ ∅ s)) /\
  Uninitialized (shut_down false (set_alive_objects_ ∅ s)).
Proof.
  intros s.
  assert (Hb : build_members false s) by reflexivity.
  assert (Hc : handles_counted s).
  { unfold handles_counted, s; simpl.
    repeat split; intros; simplify_eq; lia. }
  assert (Hne : alive_objects_ s <> ∅).
  { intros E. apply (f_equal (fun m => m !! 5%N)) in E. vm_compute in E. discriminate. }
  assert (Hrm : RemoveObject false kPeerConnection 5%N s
                = Returns tt (shut_down false (set_alive_objects_ ∅ s))).
  { vm_compute. reflexivity. }
  destruct (last_removal_shuts_down false engine_ok kPeerConnection 5%N s _
              Hb Hc Hne Hrm eq_refl) as (HU & _).
  split; [exact Hb|]. split; [exact Hne|]. split; [exact Hrm|exact HU].
Defined.

(** The life cycle on a run: acquire, register two objects, remove the
    first (the factory stays), remove the second (everything is shut down),
    acquire again (a new run of [Initialize], a new handle). *)
Example two_objects_life_cycle :
  exists s,
    perform_all false engine_ok
      [Call_GetOrCreate false;
       Call_AddObject false kLocalVideoTrack 16%N;
       Call_AddObject false kPeerConnection 32%N;
       Call_RemoveObject kLocalVideoTrack 16%N;
       Call_GetExisting;
       Call_RemoveObject kPeerConnection 32%N;
       Call_GetExisting;
       Call_GetWorkerThread;
       Call_GetOrCreate false] initial
    = Returns [Reply_factory (Some (FactoryOf 0)); Reply_void; Reply_void;
               Reply_void; Reply_factory (Some (FactoryOf 0)); Reply_void;
               Reply_factory None; Reply_thread None;
               Reply_factory (Some (FactoryOf 1))] s /\
    init_runs s = 2%nat /\ shutdown_runs s = 1%nat /\ alive_objects_ s = ∅.
Proof. eexists. split; [vm_compute; reflexivity|]. repeat split. Qed.

(** ** A failed initialization *)

(** C2.  The factory handle and the three threads are not all present or
    all absent in every reachable state.  In the build without WINUWP, from
    the initial state, with an engine whose factory construction yields null:
    [GetOrCreate] returns null and leaves the factory handle null while the
    network, worker and signaling threads of that run are held (created and
    started), so a state a client has brought about has threads without a
    factory handle. *)
Theorem failed_Initialize_keeps_threads :
  exists s,
    GetOrCreate false engine_no_factory false initial = Returns None s /\
    reachable false engine_no_factory s /\
    factory_ s = None /\
    network_thread_ s = Some (ThreadOf Network 0) /\
    worker_thread_ s = Some (ThreadOf Worker 0) /\
    signaling_thread_ s = Some (ThreadOf Signaling 0) /\
    ~ all_or_nothing s.
Proof.
  eexists. split; [reflexivity|]. split.
  { exists [Call_GetOrCreate false], [Reply_factory None]. split; reflexivity. }
  simpl. repeat split.
  unfold all_or_nothing, threads_present, threads_absent. simpl.
  intros [[[x Hx] _]|[_ [Hn _]]]; discriminate.
Qed.

(** The same defect in the WINUWP build: after a factory construction that
    yields null, [impl_] stays set, and the next [GetOrCreate] fails the
    [RTC_CHECK(!impl_)] of [Initialize]. *)
Lemma failed_Initialize_keeps_impl :
  exists s,
    GetOrCreate true engine_no_factory false initial = Returns None s /\
    factory_ s = None /\ impl_ s = Some (ImplOf 0) /\
    GetOrCreate true engine_no_factory false s = Aborts.
Proof. eexists. repeat split. Qed.

(** What does hold in every state a client can bring about: the three
    threads are all present or all absent, and a factory handle is never
    held without them. *)
Lemma reachable_threads WINUWP engine s :
  reachable WINUWP engine s ->
  (threads_present s \/ threads_absent s) /\
  (WINUWP = false -> is_Some (factory_ s) -> threads_present s).
Proof.
  intros H. apply reachable_inv in H. destruct H as (_ & _ & Ht & Hf).
  split; [exact Ht|]. intros -> Hs. exact (Hf Hs).
Qed.

(** C3, as stated, fails twice.  In the WINUWP build a call from the
    dispatcher thread fails with [kWrongThread] although no factory
    construction yields null.  In the other build, after a construction that
    yields null, the state is not [Uninitialized]: the three threads are
    held. *)
Lemma GetOrCreate_ref_fails_iff_null_counterexample :
  (GetOrCreate_ref true engine_ok true None initial
     = Returns (kWrongThread, None) (tick_init initial) /\
   forall run, factory_built true engine_ok run = true) /\
  (exists s,
     GetOrCreate_ref false engine_no_factory false None initial
       = Returns (kUnknownError, None) s /\
     ~ Uninitialized s).
Proof.
  split.
  - split; [reflexivity|]. intros run. reflexivity.
  - eexists. split; [reflexivity|].
    unfold Uninitialized. simpl. intros (_ & _ & Hn & _). discriminate.
Qed.

(** C3, amended.  [GetOrCreate(factory&)] never lets an exception out, and
    aborts only inside [Initialize] (a thread construction that yields null,
    or in the WINUWP build [impl_] already set).  When it returns, it returns a
    failure exactly when it found the factory handle null and the
    [Initialize] it ran did not succeed, which is: the call came from the
    dispatcher thread in the WINUWP build ([kWrongThread]), or else the
    factory construction of that run yielded null ([kUnknownError]).  On
    failure the out-parameter is null whatever it held before, the factory
    handle is still null and the alive map is as before, and any later call
    that returns has run [Initialize] again.  On success the out-parameter
    is the factory handle now held. *)
Theorem GetOrCreate_ref_failure WINUWP engine a f0 s :
  match GetOrCreate_ref WINUWP engine a f0 s with
  | Returns (res, f) s' =>
      (res <> kSuccess <->
         factory_ s = None /\
         (WINUWP && a = true \/
          factory_built WINUWP engine (init_runs s) = false)) /\
      (res <> kSuccess ->
         res = (if WINUWP && a then kWrongThread else kUnknownError) /\
         f = None /\ factory_ s' = None /\
         alive_objects_ s' = alive_objects_ s /\
         forall a' f1 r2 s2,
           GetOrCreate_ref WINUWP engine a' f1 s' = Returns r2 s2 ->
           init_runs s2 = S (init_runs s')) /\
      (res = kSuccess -> is_Some f /\ f = factory_ s')
  | Throws _ => False
  | Aborts =>
      factory_ s = None /\
      (if WINUWP then is_Some (impl_ s)
       else threads_built engine (init_runs s) = false)
  end.
Proof.
  assert (Retry : forall s', factory_ s' = None ->
            forall a' f1 r2 s2,
              GetOrCreate_ref WINUWP engine a' f1 s' = Returns r2 s2 ->
              init_runs s2 = S (init_runs s')).
  { intros s' Hf' a' f1 r2 s2. rewrite GetOrCreate_ref_absent by assumption.
    rewrite Initialize_eq by assumption.
    unfold initialized, factory_built. intros H.
    repeat case_match; simplify_eq; reflexivity. }
  destruct (factory_ s) as [f|] eqn:Ef.
  { rewrite (GetOrCreate_ref_present _ _ _ _ _ _ Ef).
    split; [split; [congruence|intros [? _]; discriminate]|].
    split; [congruence|]. intros _. split; [eauto|congruence]. }
  rewrite GetOrCreate_ref_absent, Initialize_eq by assumption.
  destruct WINUWP; simpl.
  - destruct (impl_ s) as [i|] eqn:Ei; simpl; [eauto|].
    destruct a; simpl.
    + split; [split; [auto|discriminate]|].
      split; [|discriminate]. intros _. repeat split; auto.
      apply Retry. exact Ef.
    + unfold initialized, factory_built.
      destruct (peerConnectionFactory engine (init_runs s)) eqn:Ep; simpl.
      * split; [split; [congruence|intros [_ [?|?]]; discriminate]|].
        split; [congruence|]. intros _. split; [eauto|reflexivity].
      * split; [split; [auto|discriminate]|].
        split; [|discriminate]. intros _. repeat split; auto.
        apply Retry. reflexivity.
  - destruct (threads_built engine (init_runs s)); [|auto].
    unfold initialized, factory_built.
    destruct (CreatePeerConnectionFactory engine (init_runs s)) eqn:Ep; simpl.
    + split; [split; [congruence|intros [_ [?|?]]; discriminate]|].
      split; [congruence|]. intros _. split; [eauto|reflexivity].
    + split; [split; [auto|discriminate]|].
      split; [|discriminate]. intros _. repeat split; auto.
      apply Retry. reflexivity.
Qed.

(** ** Repeated acquisition *)

Lemma perform_all_shutdown_runs WINUWP engine cs : forall s rs s',
  perform_all WINUWP engine cs s = Returns rs s' ->
  (shutdown_runs s <= shutdown_runs s')%nat.
Proof.
  induction cs as [|c cs IH]; intros s rs s'; simpl;
    unfold mbind, M_bind, mret, M_ret.
  - intros H; inversion H; subst; lia.
  - destruct (perform WINUWP engine c s) as [r s1| |] eqn:Ep; try discriminate.
    destruct (perform_all WINUWP engine cs s1) as [rs1 s2| |] eqn:Ea; try discriminate.
    intros H; inversion H; subst.
    apply perform_effect, effect_shutdown_runs in Ep. apply IH in Ea. lia.
Qed.

Lemma effect_keeps_factory WINUWP engine s s1 f :
  effect WINUWP engine s s1 ->
  factory_ s = Some f ->
  shutdown_runs s1 = shutdown_runs s ->
  factory_ s1 = Some f /\ init_runs s1 = init_runs s.
Proof.
  intros [|a res s2 Hi|m|m] Hf Hs.
  - auto.
  - rewrite Initialize_factory_present in Hi by (rewrite Hf; eauto). discriminate.
  - auto.
  - unfold shut_down in Hs. destruct WINUWP; simpl in Hs; lia.
Qed.

Lemma perform_reply_shows WINUWP engine c s r s1 f :
  perform WINUWP engine c s = Returns r s1 ->
  factory_ s = Some f ->
  reply_shows f r.
Proof.
  intros H Hf.
  destruct c as [a|a f0| | |e type obj|type obj|a|a i0]; simpl in H;
    unfold mbind, M_bind, mret, M_ret in H.
  - rewrite (GetOrCreate_present _ _ _ _ _ Hf) in H. inversion H; subst. exact eq_refl.
  - rewrite (GetOrCreate_ref_present _ _ _ _ _ _ Hf) in H. inversion H; subst.
    split; reflexivity.
  - unfold GetExisting in H. unfold_m. inversion H; subst. exact Hf.
  - destruct (GetWorkerThread WINUWP engine s) as [x sx| |]; inversion H; exact I.
  - destruct (AddObject e type obj s) as [x sx| |]; inversion H; exact I.
  - destruct (RemoveObject WINUWP type obj s) as [x sx| |]; inversion H; exact I.
  - destruct (get WINUWP engine a s) as [x sx| |]; inversion H; exact I.
  - destruct (GetOrCreateWebRtcFactory WINUWP engine a i0 s) as [x sx| |];
      inversion H; exact I.
Qed.

Lemma GetOrCreate_initializes_once WINUWP engine a s0 r s :
  factory_ s0 = None ->
  GetOrCreate WINUWP engine a s0 = Returns r s ->
  init_runs s = S (init_runs s0).
Proof.
  intros Hf. rewrite GetOrCreate_absent, Initialize_eq by assumption.
  unfold initialized, factory_built. intros H.
  repeat case_match; simplify_eq; reflexivity.
Qed.

(** Three acquisitions in a row from the initial state: one run of
    [Initialize], one handle. *)
Example three_acquisitions :
  exists s,
    perform_all false engine_ok
      [Call_GetOrCreate false; Call_GetOrCreate_ref false None; Call_GetOrCreate false]
      initial
    = Returns [Reply_factory (Some (FactoryOf 0));
               Reply_result_factory kSuccess (Some (FactoryOf 0));
               Reply_factory (Some (FactoryOf 0))] s /\
    init_runs s = 1%nat.
Proof. eexists. split; reflexivity. Qed.

(** C4.  Once the factory handle [f] is held, whatever calls follow, as long
    as no [RemoveObject] among them empties the alive map (no shutdown runs):
    the handle held stays [f], every [GetOrCreate], [GetOrCreate(factory&)]
    and [GetExisting] among the calls hands out [f] (with [kSuccess]), and
    [Initialize] is not run again.  The handle itself came from a single run
    of [Initialize]: the [GetOrCreate] that found no handle and produced [f]
    ran it exactly once. *)
Theorem GetOrCreate_idempotent WINUWP engine cs : forall s f rs s',
  factory_ s = Some f ->
  perform_all WINUWP engine cs s = Returns rs s' ->
  shutdown_runs s' = shutdown_runs s ->
  factory_ s' = Some f /\
  init_runs s' = init_runs s /\
  Forall (reply_shows f) rs /\
  (forall a, GetOrCreate WINUWP engine a s' = Returns (Some f) s') /\
  (forall a s0, factory_ s0 = None ->
     GetOrCreate WINUWP engine a s0 = Returns (Some f) s ->
     init_runs s = S (init_runs s0)).
Proof.
  induction cs as [|c cs IH]; intros s f rs s' Hf; simpl;
    unfold mbind, M_bind, mret, M_ret.
  - intros H _; inversion H; subst. repeat split; auto.
    + intros a. apply GetOrCreate_present. exact Hf.
    + intros a s0 H0 HG. eapply GetOrCreate_initializes_once; eauto.
  - destruct (perform WINUWP engine c s) as [r s1| |] eqn:Ep; try discriminate.
    destruct (perform_all WINUWP engine cs s1) as [rs1 s2| |] eqn:Ea; try discriminate.
    intros H Hs; inversion H; subst.
    pose proof (perform_effect _ _ _ _ _ _ Ep) as He.
    pose proof (effect_shutdown_runs _ _ _ _ He) as L1.
    pose proof (perform_all_shutdown_runs _ _ _ _ _ _ Ea) as L2.
    destruct (effect_keeps_factory _ _ _ _ _ He Hf) as [Hf1 Hi1]; [lia|].
    destruct (IH s1 f rs1 s' Hf1 Ea) as (A & B & C & D & _); [lia|].
    repeat split; auto; try lia.
    + constructor; [|exact C]. eapply perform_reply_shows; eauto.
    + intros a s0 H0 HG. eapply GetOrCreate_initializes_once; eauto.
Qed.

Lemma GetOrCreate_idempotent_witness :
  let s := initialized false engine_ok initial in
  let cs := [Call_GetOrCreate false; Call_AddObject false kPeerConnection 5%N;
             Call_GetOrCreate_ref false None; Call_GetExisting] in
  let rs := [Reply_factory (Some (FactoryOf 0)); Reply_void;
             Reply_result_factory kSuccess (Some (FactoryOf 0));
             Reply_factory (Some (FactoryOf 0))] in
  let s' := set_alive_objects_ {[ 5%N := kPeerConnection ]} s in
  factory_ s = Some (FactoryOf 0) /\
  perform_all false engine_ok cs s = Returns rs s' /\
  shutdown_runs s' = shutdown_runs s /\
  init_runs s' = init_runs s /\
  Forall (reply_shows (FactoryOf 0)) rs.
Proof.
  intros s cs rs s'.
  assert (Hf : factory_ s = Some (FactoryOf 0)) by reflexivity.
  assert (Hp : perform_all false engine_ok cs s = Returns rs s')
    by (vm_compute; reflexivity).
  assert (Hs : shutdown_runs s' = shutdown_runs s) by reflexivity.
  destruct (GetOrCreate_idempotent false engine_ok cs s (FactoryOf 0) rs s' Hf Hp Hs)
    as (_ & B & C & _).
  repeat split; assumption.
Defined.

End GlobalFactoryFacts.

(* ===================================================================== *)
(** * Part IV.  Properties of the audio read stream                        *)
(* ===================================================================== *)

Section AudioReadStreamFacts.

Import AudioReadStream.

Variable resample : Frame -> Z -> Z -> list float.
Variable filler : Z -> float.

Lemma to_int_id z : INT_MIN <= z <= INT_MAX -> to_int z = z.
Proof.
  unfold to_int, INT_MIN, INT_MAX. intros H.
  rewrite Z.mod_small by lia. lia.
Qed.

Lemma to_size_t_id z : 0 <= z < 2 ^ 64 -> to_size_t z = z.
Proof. unfold to_size_t. intros H. apply Z.mod_small. exact H. Qed.

Lemma available_eq b :
  buffer_ok b -> available b = Z.of_nat (length (data_ b)) - used_ b.
Proof.
  intros [[H0 H1] H2]. unfold available.
  assert (0 <= INT_MAX) by (unfold INT_MAX; lia).
  rewrite (to_int_id (Z.of_nat _)) by (unfold INT_MIN, INT_MAX in *; lia).
  apply to_int_id. unfold INT_MIN, INT_MAX in *. lia.
Qed.

Lemma memcpy_ok (dst src : list float) off count :
  0 <= off -> 0 <= count <= INT_MAX ->
  off + count <= Z.of_nat (length src) ->
  count <= Z.of_nat (length dst) ->
  memcpy dst src off (to_size_t (to_size_t count * sizeof_float)) =
    Some (firstn (Z.to_nat count) (skipn (Z.to_nat off) src)
          ++ skipn (Z.to_nat count) dst).
Proof.
  intros Hoff Hc Hsrc Hdst. unfold INT_MAX in Hc.
  assert (Hbytes : to_size_t (to_size_t count * sizeof_float) = count * sizeof_float).
  { unfold sizeof_float. rewrite (to_size_t_id count) by lia.
    apply to_size_t_id. lia. }
  rewrite Hbytes. unfold memcpy.
  replace (count * sizeof_float / sizeof_float) with count
    by (unfold sizeof_float; symmetry; apply Z.div_mul; lia).
  assert (E1 : (0 <=? off) = true) by (apply Z.leb_le; lia).
  assert (E2 : (off + count <=? Z.of_nat (length src)) = true) by (apply Z.leb_le; lia).
  assert (E3 : (count <=? Z.of_nat (length dst)) = true) by (apply Z.leb_le; lia).
  rewrite E1, E2, E3. reflexivity.
Qed.

Lemma memcpy_length (dst src : list float) off count :
  0 <= off -> 0 <= count ->
  off + count <= Z.of_nat (length src) ->
  count <= Z.of_nat (length dst) ->
  length (firstn (Z.to_nat count) (skipn (Z.to_nat off) src)
          ++ skipn (Z.to_nat count) dst) = length dst.
Proof.
  intros. rewrite length_app, length_firstn, !length_skipn. lia.
Qed.

Lemma readSome_eq (b : Buffer) (dst : list float) (dstLen : Z) :
  buffer_ok b ->
  0 <= dstLen <= Z.of_nat (length dst) ->
  let take := Z.min (available b) dstLen in
  readSome b dst dstLen =
    Some (take,
          firstn (Z.to_nat take) (skipn (Z.to_nat (used_ b)) (data_ b))
            ++ skipn (Z.to_nat take) dst,
          {| data_ := data_ b; used_ := used_ b + take;
             channels_ := channels_ b; rate_ := rate_ b |}).
Proof.
  intros Hok Hlen take.
  pose proof (available_eq b Hok) as Hav.
  destruct Hok as [[H0 H1] Hfit].
  unfold readSome. fold take.
  rewrite memcpy_ok by (unfold INT_MAX in *; unfold take; lia).
  rewrite to_int_id by (unfold INT_MIN, INT_MAX in *; unfold take; lia).
  reflexivity.
Qed.

(** C10.  From a buffer that satisfies [0 <= used_ <= data_.size()] (the
    size being one an [int] holds, as [available] presupposes), and for
    every [dstLen >= 0] with room for [dstLen] samples at [dst]:
    [readSome] is defined, so no access leaves [data_] or the destination;
    it returns [take = min(available(), dstLen)]; the first [take] entries
    of the destination are [data_[used_ .. used_ + take)] and the rest of it
    is as before; [used_] has advanced by [take] and nothing else of the
    buffer changed; [used_ + take] does not pass the end of [data_], and the
    invariant holds again. *)
Theorem readSome_spec (b : Buffer) (dst : list float) (dstLen : Z) :
  buffer_inv b ->
  Z.of_nat (length (data_ b)) <= INT_MAX ->
  0 <= dstLen <= Z.of_nat (length dst) ->
  let take := Z.min (available b) dstLen in
  available b = Z.of_nat (length (data_ b)) - used_ b /\
  0 <= take /\
  used_ b + take <= Z.of_nat (length (data_ b)) /\
  exists dst' b',
    readSome b dst dstLen = Some (take, dst', b') /\
    dst' = firstn (Z.to_nat take) (skipn (Z.to_nat (used_ b)) (data_ b))
           ++ skipn (Z.to_nat take) dst /\
    length dst' = length dst /\
    used_ b' = used_ b + take /\
    data_ b' = data_ b /\ channels_ b' = channels_ b /\ rate_ b' = rate_ b /\
    buffer_inv b'.
Proof.
  intros Hinv Hfit Hlen take.
  assert (Hok : buffer_ok b) by (split; assumption).
  pose proof (available_eq b Hok) as Hav.
  destruct Hinv as [H0 H1].
  assert (Ht0 : 0 <= take) by (unfold take; lia).
  assert (Ht1 : used_ b + take <= Z.of_nat (length (data_ b))) by (unfold take; lia).
  split; [exact Hav|]. split; [exact Ht0|]. split; [exact Ht1|].
  eexists _, _. split; [apply readSome_eq; assumption|]. fold take.
  cbn [used_ data_ channels_ rate_].
  split; [reflexivity|].
  split; [apply memcpy_length; lia|].
  repeat split; cbn [used_ data_ channels_ rate_]; lia.
Qed.

Lemma readSome_spec_witness :
  let b := {| data_ := [1%float; 2%float; 3%float; 4%float]; used_ := 1;
              channels_ := 1; rate_ := 48000 |} in
  let dst := [0%float; 0%float; 0%float; 0%float; 0%float] in
  buffer_inv b /\
  readSome b dst 5 =
    Some (3, [2%float; 3%float; 4%float; 0%float; 0%float],
          {| data_ := data_ b; used_ := 4; channels_ := 1; rate_ := 48000 |}).
Proof.
  intros b dst.
  assert (Hinv : buffer_inv b) by (unfold buffer_inv; simpl; lia).
  assert (Hfit : Z.of_nat (length (data_ b)) <= INT_MAX) by (unfold INT_MAX; simpl; lia).
  assert (Hlen : 0 <= 5 <= Z.of_nat (length dst)) by (simpl; lia).
  split; [exact Hinv|].
  destruct (readSome_spec b dst 5 Hinv Hfit Hlen) as (_ & _ & _ & d & b' & E & _).
  rewrite E. vm_compute in E. inversion E; subst. vm_compute. reflexivity.
Defined.

(** ** The raw frame queue *)

Lemma dropOldest_skipn bound (frames : list Frame) :
  dropOldest bound frames = skipn (length frames - bound) frames.
Proof.
  induction frames as [|f rest IH]; [reflexivity|].
  cbn [dropOldest]. destruct (Nat.ltb_spec bound (length (f :: rest))) as [Hlt|Hge].
  - rewrite IH. cbn [length] in *.
    replace (S (length rest) - bound)%nat with (S (length rest - bound)) by lia.
    reflexivity.
  - replace (length (f :: rest) - bound)%nat with 0%nat by lia. reflexivity.
Qed.

Lemma dropOldest_length bound (frames : list Frame) :
  length (dropOldest bound frames) = Nat.min bound (length frames).
Proof. rewrite dropOldest_skipn, length_skipn. lia. Qed.


Lemma pushFrame_horizon st f : horizonFrames (pushFrame st f) = horizonFrames st.
Proof. reflexivity. Qed.

Lemma pushFrames_horizon fs : forall st,
  horizonFrames (pushFrames st fs) = horizonFrames st.
Proof.
  induction fs as [|f fs IH]; intros st; [reflexivity|].
  unfold pushFrames in *. cbn [fold_left]. rewrite IH. apply pushFrame_horizon.
Qed.

Lemma pushFrames_buffer fs : forall st,
  buffer_ (pushFrames st fs) = buffer_ st.
Proof.
  induction fs as [|f fs IH]; intros st; [reflexivity|].
  unfold pushFrames in *. cbn [fold_left]. rewrite IH. reflexivity.
Qed.





(** ** Reading *)







(** The size of the refilled buffer: [refill] converts a frame only while
    fewer than [N] samples are unread, so with frames of at most [M] samples
    each the buffer ends below [used_ + N + M]. *)
Lemma refill_fits rate ch N M : forall frames b,
  buffer_ok b ->
  Forall (fun f => Z.of_nat (length (resample f rate ch)) <= M) frames ->
  used_ b + N + M <= INT_MAX + 1 ->
  Z.of_nat (length (data_ (snd (refill resample rate ch N frames b)))) <= INT_MAX.
Proof.
  induction frames as [|f fs IH]; intros b Hok HM Hsum; cbn [refill].
  - apply Hok.
  - destruct (Z.ltb_spec (available b) N) as [Hlt|Hge]; [|apply Hok].
    inversion HM as [|f' fs' Hf Hfs]; subst.
    rewrite (available_eq b Hok) in Hlt.
    destruct Hok as [[H0 H1] Hfit].
    apply IH; [|exact Hfs|exact Hsum].
    unfold buffer_ok, buffer_inv. cbn [addFrame data_ used_].
    rewrite length_app. lia.
Qed.

(** A stream as constructed, and after any pushes, has a working buffer
    within its invariant that holds conversions of its own format only. *)
Lemma pushFrames_construct_ready autoBufferMs bufferMs fs :
  let st := pushFrames (construct autoBufferMs bufferMs) fs in
  buffer_inv (buffer_ st) /\ converted resample (buffer_ st) [].
Proof.
  cbn zeta. rewrite pushFrames_buffer.
  split; [unfold buffer_inv; cbn; lia|reflexivity].
Qed.


End AudioReadStreamFacts.

Section AudioReadStreamExamples.

Import AudioReadStream.

(** Five frames of 10 ms pushed into a stream of horizon 40 ms, then one
    read of 480 samples: all 480 come from the first pushed frame, none is
    filler, and the four later frames stay queued. *)
Example read_after_five_pushes :
  let st := pushFrames (construct 40 40)
              [test_frame 480 1; test_frame 480 2; test_frame 480 3;
               test_frame 480 4; test_frame 480 5] in
  exists st',
    Read unit_resample flat_filler st 48000 (repeat 0%float 480) 480 1
      = Some (st', repeat 1%float 480) /\
    frames_ st' = [test_frame 480 2; test_frame 480 3; test_frame 480 4;
                   test_frame 480 5].
Proof. eexists. split; vm_compute; reflexivity. Qed.

(** A read before any push: the whole array is filler. *)
Example read_before_any_push :
  exists st',
    Read unit_resample flat_filler (construct 40 (-1)) 48000 (repeat 0%float 8) 8 2
      = Some (st', repeat 0.25%float 8).
Proof. eexists. vm_compute. reflexivity. Qed.


(** Two reads at two rates.  The first, at 16 kHz, converts the first frame
    and leaves one of its samples unread; the second, at 48 kHz, serves
    nothing of it: it delivers the second frame converted for 48 kHz, then
    filler. *)
Example read_at_another_rate :
  let st := pushFrames (construct 40 40) [test_frame 4 1; test_frame 2 2] in
  exists st1 st2,
    Read keyed_resample flat_filler st 16000 (repeat 0%float 3) 3 1
      = Some (st1, [0.5%float; 0.5%float; 0.5%float]) /\
    available (buffer_ st1) = 1 /\
    Read keyed_resample flat_filler st1 48000 (repeat 0%float 3) 3 1
      = Some (st2, [1%float; 1%float; 0.25%float]) /\
    frames_ st2 = [] /\ rate_ (buffer_ st2) = 48000.
Proof. eexists _, _. repeat split; vm_compute; reflexivity. Qed.


End AudioReadStreamExamples.

(* ===================================================================== *)
(** * Part V.  Further properties of the global factory                    *)
(* ===================================================================== *)

Section GlobalFactoryMore.

Import GlobalFactory.

Ltac unfold_bind := unfold mbind, M_bind, mret, M_ret in *.

Lemma set_alive_objects_same s : set_alive_objects_ (alive_objects_ s) s = s.
Proof. destruct s. reflexivity. Qed.

(** X1.  Registering an object whose address is not tracked and removing it
    again with the same type: when other objects are alive the state is
    exactly the one before; when none is, the removal is a last removal, and
    the factory and threads that were there are shut down. *)
Theorem register_unregister_round_trip WINUWP type obj s :
  alive_objects_ s !! obj = None ->
  (AddObject false type obj ;; RemoveObject WINUWP type obj) s =
    Returns tt (if decide (alive_objects_ s = ∅) then shut_down WINUWP s else s).
Proof.
  intros H. unfold_bind. rewrite AddObject_eq, H. cbn match.
  rewrite RemoveObject_eq. cbn [alive_objects_ set_alive_objects_].
  rewrite lookup_insert_eq, bool_decide_eq_true_2 by reflexivity.
  rewrite delete_insert_id by assumption.
  assert (E : set_alive_objects_ (alive_objects_ s)
                (set_alive_objects_ (<[obj:=type]> (alive_objects_ s)) s) = s)
    by (destruct s; reflexivity).
  rewrite E. destruct (decide _); reflexivity.
Qed.

Lemma register_unregister_round_trip_witness :
  let s := set_alive_objects_ {[ 5%N := kPeerConnection ]}
             (initialized false engine_ok initial) in
  alive_objects_ s !! 9%N = None /\
  (AddObject false kLocalVideoTrack 9%N ;; RemoveObject false kLocalVideoTrack 9%N) s
    = Returns tt s /\
  (AddObject false kLocalVideoTrack 9%N ;; RemoveObject false kLocalVideoTrack 9%N)
      (initialized false engine_ok initial)
    = Returns tt (shut_down false (initialized false engine_ok initial)).
Proof.
  intros s. split; [reflexivity|]. split.
  - rewrite (register_unregister_round_trip false kLocalVideoTrack 9%N s eq_refl).
    reflexivity.
  - rewrite (register_unregister_round_trip false kLocalVideoTrack 9%N
               (initialized false engine_ok initial) eq_refl).
    reflexivity.
Defined.

(** X2.  Registering an address that is already tracked changes nothing: the
    type recorded first stays.  Removing the object with the type of the
    second registration, when the two differ, then fails the fatal check. *)
Theorem double_registration_keeps_first_type WINUWP bad_alloc type obj k s :
  alive_objects_ s !! obj = Some k ->
  AddObject bad_alloc type obj s = Returns tt s /\
  (type <> k ->
   (AddObject bad_alloc type obj ;; RemoveObject WINUWP type obj) s = Aborts).
Proof.
  intros H.
  assert (E : AddObject bad_alloc type obj s = Returns tt s).
  { rewrite AddObject_eq, H. destruct bad_alloc; reflexivity. }
  split; [exact E|]. intros Hne. unfold_bind. rewrite E.
  rewrite RemoveObject_eq, H, bool_decide_eq_false_2 by congruence. reflexivity.
Qed.

Lemma double_registration_keeps_first_type_witness :
  let s := set_alive_objects_ {[ 5%N := kPeerConnection ]} initial in
  alive_objects_ s !! 5%N = Some kPeerConnection /\
  AddObject false kLocalVideoTrack 5%N s = Returns tt s /\
  (AddObject false kLocalVideoTrack 5%N ;; RemoveObject false kLocalVideoTrack 5%N) s
    = Aborts.
Proof.
  intros s.
  destruct (double_registration_keeps_first_type false false kLocalVideoTrack 5%N
              kPeerConnection s eq_refl) as [A B].
  split; [reflexivity|]. split; [exact A|]. apply B. discriminate.
Defined.

Lemma perform_RemoveObject WINUWP engine type obj s :
  perform WINUWP engine (Call_RemoveObject type obj) s =
    match RemoveObject WINUWP type obj s with
    | Returns _ s' => Returns Reply_void s'
    | Throws s' => Throws s'
    | Aborts => Aborts
    end.
Proof. reflexivity. Qed.

Lemma removals_all WINUWP engine (l : list (N * ObjectType)) : forall s,
  l <> [] ->
  NoDup (l.*1) ->
  (forall o k, (o, k) ∈ l <-> alive_objects_ s !! o = Some k) ->
  perform_all WINUWP engine (removals l) s =
    Returns (replicate (length l) Reply_void)
            (shut_down WINUWP (set_alive_objects_ ∅ s)).
Proof.
  induction l as [|[o k] l IH]; intros s Hne Hnd Hin; [contradiction|].
  assert (Hok : alive_objects_ s !! o = Some k) by (apply Hin; left).
  rewrite fmap_cons in Hnd. apply NoDup_cons in Hnd. destruct Hnd as [Hnotin Hnd].
  cbn [fst] in Hnotin.
  cbn [removals map fst snd perform_all]. unfold_bind.
  rewrite perform_RemoveObject, RemoveObject_eq, Hok.
  rewrite bool_decide_eq_true_2 by reflexivity. cbn zeta.
  cbn [alive_objects_ set_alive_objects_].
  destruct l as [|[o2 k2] l2].
  - assert (He : delete o (alive_objects_ s) = ∅).
    { apply map_empty. intros i. destruct (decide (i = o)) as [->|Hio].
      - apply lookup_delete_eq.
      - rewrite lookup_delete_ne by congruence.
        destruct (alive_objects_ s !! i) as [x|] eqn:Ei; [|reflexivity].
        apply Hin in Ei. apply list_elem_of_singleton in Ei. congruence. }
    rewrite He. rewrite decide_True by reflexivity. reflexivity.
  - assert (Hn : delete o (alive_objects_ s) <> ∅).
    { intros He. apply (f_equal (fun m => m !! o2)) in He.
      rewrite lookup_empty, lookup_delete_ne in He.
      - assert (H2 : alive_objects_ s !! o2 = Some k2) by (apply Hin; right; left).
        congruence.
      - intros ->. apply Hnotin. rewrite fmap_cons. left. }
    rewrite decide_False by assumption.
    fold (removals ((o2, k2) :: l2)).
    rewrite (IH (set_alive_objects_ (delete o (alive_objects_ s)) s)).
    + reflexivity.
    + discriminate.
    + exact Hnd.
    + intros o' k'. cbn [alive_objects_ set_alive_objects_]. split.
      * intros Hel. assert (o' <> o).
        { intros ->. apply Hnotin. apply list_elem_of_fmap. exists (o, k'). auto. }
        rewrite lookup_delete_ne by congruence. apply Hin. right. exact Hel.
      * intros Hl. destruct (decide (o' = o)) as [->|Hne'].
        { rewrite lookup_delete_eq in Hl. discriminate. }
        rewrite lookup_delete_ne in Hl by congruence.
        apply Hin in Hl. apply elem_of_cons in Hl. destruct Hl as [Heq|Hl]; [congruence|exact Hl].
Qed.

(** X3.  From a state with tracked objects, removing every one of them, each
    with its recorded type, in any order: every call returns, the shutdown
    runs exactly once (in the last call), and the state left is
    [Uninitialized] with an empty alive map and no new run of
    [Initialize]. *)
Theorem removing_all_objects_shuts_down_once WINUWP engine
    (l : list (N * ObjectType)) (s : State) :
  alive_objects_ s <> ∅ ->
  l ≡ₚ map_to_list (alive_objects_ s) ->
  build_members WINUWP s ->
  exists s',
    perform_all WINUWP engine (removals l) s
      = Returns (replicate (length l) Reply_void) s' /\
    shutdown_runs s' = S (shutdown_runs s) /\
    init_runs s' = init_runs s /\
    alive_objects_ s' = ∅ /\
    Uninitialized s'.
Proof.
  intros Hne Hp Hb.
  exists (shut_down WINUWP (set_alive_objects_ ∅ s)). split.
  - apply removals_all.
    + intros ->. apply Permutation_nil_l in Hp. symmetry in Hp.
      apply map_to_list_empty_iff in Hp. contradiction.
    + rewrite Hp. apply NoDup_fst_map_to_list.
    + intros o k. rewrite Hp. apply elem_of_map_to_list.
  - unfold shut_down, Uninitialized, build_members, threads_absent in *.
    destruct WINUWP; simpl; tauto.
Qed.

Lemma removing_all_objects_shuts_down_once_witness :
  let s := set_alive_objects_
             (<[ 9%N := kLocalVideoTrack ]> {[ 5%N := kPeerConnection ]})
             (initialized false engine_ok initial) in
  let l := [(9%N, kLocalVideoTrack); (5%N, kPeerConnection)] in
  alive_objects_ s <> ∅ /\
  l ≡ₚ map_to_list (alive_objects_ s) /\
  exists s',
    perform_all false engine_ok (removals l) s = Returns [Reply_void; Reply_void] s' /\
    Uninitialized s'.
Proof.
  intros s l.
  assert (Hne : alive_objects_ s <> ∅).
  { intros E. apply (f_equal (fun m => m !! 5%N)) in E. vm_compute in E. discriminate. }
  assert (Hp : l ≡ₚ map_to_list (alive_objects_ s)).
  { vm_compute. first [reflexivity | apply perm_swap]. }
  split; [exact Hne|]. split; [exact Hp|].
  destruct (removing_all_objects_shuts_down_once false engine_ok l s Hne Hp eq_refl)
    as (s' & E & _ & _ & _ & HU).
  exists s'. split; [exact E|exact HU].
Defined.

(** X4.  In the build without WINUWP a call ends in a failed [RTC_CHECK]
    in two cases, and in these only: a [RemoveObject] that names a tracked
    object with another type than the recorded one, or an acquisition that
    finds no factory handle and whose run of [Initialize] gets a null
    thread.  In particular the [RTC_CHECK(!factory_)] of [Initialize] never
    fails through a public call. *)
Theorem abort_only_on_mismatch_or_null_thread engine c s :
  in_build false c = true ->
  perform false engine c s = Aborts <->
  (mismatched_removal c s \/
   (acquires c = true /\ factory_ s = None /\
    threads_built engine (init_runs s) = false)).
Proof.
  intros Hb.
  destruct c as [a|a f0| | |e type obj|type obj|a|a i0]; try discriminate Hb;
    cbn [perform mismatched_removal acquires]; unfold_bind.
  - destruct (factory_ s) as [f|] eqn:Ef.
    + rewrite (GetOrCreate_present _ _ _ _ _ Ef).
      split; [discriminate|intros [[]|(_ & H & _)]; discriminate].
    + rewrite (GetOrCreate_absent _ _ _ _ Ef), Initialize_eq by assumption.
      destruct (threads_built engine (init_runs s)).
      * split; [destruct (decide _); discriminate
               |intros [[]|(_ & _ & H)]; discriminate].
      * split; [right; auto|reflexivity].
  - destruct (factory_ s) as [f|] eqn:Ef.
    + rewrite (GetOrCreate_ref_present _ _ _ _ _ _ Ef).
      split; [discriminate|intros [[]|(_ & H & _)]; discriminate].
    + rewrite (GetOrCreate_ref_absent _ _ _ _ _ Ef), Initialize_eq by assumption.
      destruct (threads_built engine (init_runs s)).
      * split; [destruct (decide _); discriminate
               |intros [[]|(_ & _ & H)]; discriminate].
      * split; [right; auto|reflexivity].
  - split; [discriminate|intros [[]|(H & _)]; discriminate].
  - split; [discriminate|intros [[]|(H & _)]; discriminate].
  - rewrite AddObject_eq.
    split; [discriminate|intros [[]|(H & _)]; discriminate].
  - rewrite RemoveObject_eq.
    destruct (alive_objects_ s !! obj) as [k|] eqn:Ek.
    + destruct (bool_decide_reflect (k = type)) as [->|Hne].
      * cbn zeta. split.
        -- destruct (decide _); discriminate.
        -- intros [(k' & Hk & Hne)|(H & _)]; [congruence|discriminate].
      * split; [|reflexivity]. intros _. left. exists k. auto.
    + split; [discriminate|].
      intros [(k' & Hk & _)|(H & _)]; discriminate.
Qed.

Lemma abort_only_on_mismatch_or_null_thread_witness :
  let s := set_alive_objects_ {[ 7%N := kPeerConnection ]} initial in
  in_build false (Call_RemoveObject kLocalVideoTrack 7%N) = true /\
  perform false engine_ok (Call_RemoveObject kLocalVideoTrack 7%N) s = Aborts /\
  mismatched_removal (Call_RemoveObject kLocalVideoTrack 7%N) s.
Proof.
  intros s.
  pose proof (abort_only_on_mismatch_or_null_thread engine_ok
                (Call_RemoveObject kLocalVideoTrack 7%N) s eq_refl) as [H _].
  assert (E : perform false engine_ok (Call_RemoveObject kLocalVideoTrack 7%N) s
              = Aborts) by (vm_compute; reflexivity).
  split; [reflexivity|]. split; [exact E|].
  destruct (H E) as [Hm|(Ha & _)]; [exact Hm|discriminate Ha].
Defined.

Lemma effect_built_together WINUWP engine s s' :
  effect WINUWP engine s s' -> built_together WINUWP s -> built_together WINUWP s'.
Proof.
  intros [|a res s1 Hi|m|m] Hbt.
  - assumption.
  - destruct (factory_ s) as [f|] eqn:Ef.
    { rewrite Initialize_factory_present in Hi by (rewrite Ef; eauto). discriminate. }
    rewrite Initialize_eq in Hi by assumption.
    unfold built_together, initialized in *.
    destruct WINUWP.
    + destruct (isSome (impl_ s)); [discriminate|].
      destruct a; inversion Hi; subst; clear Hi; simpl.
      * intros r Hr. rewrite Ef in Hr. discriminate.
      * intros r Hr. unfold factory_built in Hr.
        repeat case_match; simplify_eq; reflexivity.
    + destruct (threads_built engine (init_runs s)); [|discriminate].
      inversion Hi; subst; clear Hi; simpl.
      intros r Hr. unfold factory_built in Hr.
      repeat case_match; simplify_eq; auto.
  - exact Hbt.
  - unfold built_together, shut_down. destruct WINUWP; simpl; intros r Hr; discriminate.
Qed.

Lemma perform_all_built_together WINUWP engine cs : forall s rs s',
  perform_all WINUWP engine cs s = Returns rs s' ->
  built_together WINUWP s -> built_together WINUWP s'.
Proof.
  induction cs as [|c cs IH]; intros s rs s'; simpl; unfold_bind.
  - intros H; inversion H; subst; auto.
  - destruct (perform WINUWP engine c s) as [r s1| |] eqn:Ep; try discriminate.
    destruct (perform_all WINUWP engine cs s1) as [rs1 s2| |] eqn:Ea; try discriminate.
    intros H Hbt; inversion H; subst.
    eapply IH; eauto. eapply effect_built_together; eauto. eapply perform_effect; eauto.
Qed.

(** X5.  In every state a client can bring about, a factory handle that is
    held was built in the same run of [Initialize] as the threads held (the
    WINUWP factory in that build), and [GetExisting] returns that handle.
    [GetWorkerThread] then returns without a change of state: in the build
    without WINUWP the worker thread of that very run, never null and never
    a thread of another run; in the WINUWP build [impl_] is not null there,
    and what is returned is the worker thread the WINUWP factory of that
    very run holds, null when it holds none. *)
Theorem factory_built_on_held_threads WINUWP engine s r :
  reachable WINUWP engine s ->
  factory_ s = Some (FactoryOf r) ->
  built_together WINUWP s /\
  GetExisting s = Returns (Some (FactoryOf r)) s /\
  GetWorkerThread WINUWP engine s =
    Returns (if WINUWP && negb (workerThread engine r) then None
             else Some (ThreadOf Worker r)) s.
Proof.
  intros (cs & rs & _ & Hrun) Hf.
  assert (Hbt : built_together WINUWP s).
  { eapply perform_all_built_together; eauto. intros r0 H0. discriminate. }
  split; [exact Hbt|]. split.
  - unfold GetExisting, getState. unfold_bind. rewrite Hf. reflexivity.
  - specialize (Hbt r Hf). unfold GetWorkerThread, getState. unfold_bind.
    destruct WINUWP.
    + rewrite Hbt. cbn [andb]. destruct (workerThread engine r); reflexivity.
    + destruct Hbt as (_ & Hw & _). rewrite Hw. reflexivity.
Qed.

Lemma factory_built_on_held_threads_witness :
  let s := initialized false engine_ok initial in
  reachable false engine_ok s /\
  GetWorkerThread false engine_ok s = Returns (Some (ThreadOf Worker 0)) s.
Proof.
  intros s.
  assert (Hr : reachable false engine_ok s).
  { exists [Call_GetOrCreate false], [Reply_factory (Some (FactoryOf 0))].
    split; reflexivity. }
  split; [exact Hr|].
  destruct (factory_built_on_held_threads false engine_ok s 0%nat Hr eq_refl)
    as (_ & _ & H).
  exact H.
Defined.

(** The WINUWP build before any acquisition: [GetWorkerThread] dereferences
    the null [impl_]. *)
Example GetWorkerThread_before_acquisition engine :
  GetWorkerThread true engine initial = Aborts.
Proof. reflexivity. Qed.

Lemma null_key_logged (m : gmap N ObjectType) :
  existsb (fun entry : N * ObjectType => (fst entry =? 0)%N) (map_to_list m)
  = bool_decide (is_Some (m !! 0%N)).
Proof.
  destruct (m !! 0%N) as [type|] eqn:E0.
  - rewrite bool_decide_eq_true_2 by eauto.
    apply existsb_exists. exists (0%N, type). split; [|reflexivity].
    apply list_elem_of_In, elem_of_map_to_list. exact E0.
  - rewrite bool_decide_eq_false_2 by (intros [x Hx]; discriminate).
    destruct (existsb _ _) eqn:Ex; [|reflexivity].
    apply existsb_exists in Ex. destruct Ex as ([obj type] & Hin & Hz).
    cbn [fst] in Hz. apply N.eqb_eq in Hz. subst obj.
    apply list_elem_of_In, elem_of_map_to_list in Hin. congruence.
Qed.

(** X6.  The destructor with objects still alive.  When the null address is
    among the tracked keys (which [AddObject] does not exclude), the log
    line of that entry dereferences it, although [ObjectToString] tests the
    pointer just before, and the destructor does not return.  Otherwise it
    runs to its end: it reports each entry of the alive map exactly once,
    runs the shutdown all the same (the factory handle is null afterwards),
    and leaves the alive map as it was. *)
Theorem Destructor_reports_and_shuts_down WINUWP s :
  exists leaked,
    Destructor WINUWP s =
      (if bool_decide (is_Some (alive_objects_ s !! 0%N)) then Aborts
       else Returns leaked (shut_down WINUWP s)) /\
    leaked ≡ₚ map_to_list (alive_objects_ s) /\
    NoDup leaked /\
    length leaked = size (alive_objects_ s) /\
    alive_objects_ (shut_down WINUWP s) = alive_objects_ s /\
    factory_ (shut_down WINUWP s) = None /\
    shutdown_runs (shut_down WINUWP s) = S (shutdown_runs s).
Proof.
  exists (map_to_list (alive_objects_ s)). split.
  - rewrite Destructor_eq. cbn zeta. rewrite <- null_key_logged.
    destruct (decide (alive_objects_ s = ∅)) as [He|Hn].
    + rewrite He, map_to_list_empty. reflexivity.
    + reflexivity.
  - split; [reflexivity|]. split; [apply NoDup_map_to_list|].
    split; [apply length_map_to_list|].
    unfold shut_down. destruct WINUWP; repeat split.
Qed.

(** A null object registered, then the destructor: the process is gone. *)
Example Destructor_null_object WINUWP :
  (AddObject false kPeerConnection 0%N ;; Destructor WINUWP) initial = Aborts.
Proof. destruct WINUWP; vm_compute; reflexivity. Qed.

(** Two objects registered, then the destructor: both are reported, in
    the order of the map, and the factory is shut down. *)
Example Destructor_two_objects :
  exists leaked s,
    (AddObject false kPeerConnection 5%N ;;
     AddObject false kLocalVideoTrack 9%N ;;
     Destructor false) initial
    = Returns leaked s /\
    leaked ≡ₚ [(5%N, kPeerConnection); (9%N, kLocalVideoTrack)] /\
    factory_ s = None /\ shutdown_runs s = 1%nat.
Proof.
  eexists _, _. split; [vm_compute; reflexivity|].
  split; [apply Permutation_swap|]. split; reflexivity.
Qed.

(** X7.  The two overloads of [GetOrCreate] agree: from the same state they
    both abort or both return, in the same state, and the pointer returned
    by the first is the out-parameter of the second; that pointer is
    non-null exactly when the second reports [kSuccess]. *)
Theorem GetOrCreate_overloads_agree WINUWP engine a f0 s :
  match GetOrCreate WINUWP engine a s, GetOrCreate_ref WINUWP engine a f0 s with
  | Returns p s1, Returns (res, f) s2 =>
      s1 = s2 /\ p = f /\ (res = kSuccess <-> is_Some p)
  | Aborts, Aborts => True
  | _, _ => False
  end.
Proof.
  destruct (factory_ s) as [f|] eqn:Ef.
  - rewrite (GetOrCreate_present _ _ _ _ _ Ef), (GetOrCreate_ref_present _ _ _ _ _ _ Ef).
    repeat split; eauto.
  - rewrite (GetOrCreate_absent _ _ _ _ Ef), (GetOrCreate_ref_absent _ _ _ _ _ Ef).
    rewrite Initialize_eq by assumption. unfold initialized, factory_built.
    destruct WINUWP.
    + destruct (isSome (impl_ s)); [exact I|].
      destruct a.
      * simpl. repeat split; try reflexivity;
          intros H; first [discriminate | destruct H; discriminate].
      * destruct (peerConnectionFactory engine (init_runs s)); simpl;
          repeat split; try reflexivity;
          try (intros H; first [discriminate | destruct H; discriminate]); eauto.
    + destruct (threads_built engine (init_runs s)); [|exact I].
      destruct (CreatePeerConnectionFactory engine (init_runs s)); simpl;
        repeat split; try reflexivity;
        try (intros H; first [discriminate | destruct H; discriminate]); eauto.
Qed.

(** X8.  WINUWP build: when the factory construction of a run yields null,
    [GetOrCreateWebRtcFactory] reports [kUnknownError] with a null
    out-parameter, yet keeps the WebRtcFactory it built.  A second call then
    reports [kSuccess] and hands out that very object without running
    [Initialize] again, the peer connection factory handle still being null,
    while [GetOrCreate] from the same state fails the [RTC_CHECK(!impl_)]. *)
Theorem WINUWP_retry_hands_out_half_built_factory engine i0 i1 a' s :
  factory_ s = None ->
  impl_ s = None ->
  peerConnectionFactory engine (init_runs s) = false ->
  exists s1,
    GetOrCreateWebRtcFactory true engine false i0 s = Returns (kUnknownError, None) s1 /\
    factory_ s1 = None /\
    init_runs s1 = S (init_runs s) /\
    GetOrCreateWebRtcFactory true engine a' i1 s1
      = Returns (kSuccess, Some (ImplOf (init_runs s))) s1 /\
    get true engine a' s1 = Returns (Some (ImplOf (init_runs s))) s1 /\
    GetOrCreate true engine a' s1 = Aborts.
Proof.
  intros Hf Hi Hp.
  exists (initialized true engine s).
  assert (E1 : factory_ (initialized true engine s) = None).
  { unfold initialized, factory_built. rewrite Hp. reflexivity. }
  assert (E2 : impl_ (initialized true engine s) = Some (ImplOf (init_runs s)))
    by reflexivity.
  split.
  { rewrite GetOrCreateWebRtcFactory_eq, Hi. cbn [isSome].
    rewrite Initialize_eq by assumption. rewrite Hi. cbn [isSome].
    unfold factory_built. rewrite Hp. reflexivity. }
  split; [exact E1|]. split; [reflexivity|]. split.
  { rewrite GetOrCreateWebRtcFactory_eq, E2. reflexivity. }
  split.
  { rewrite get_eq, E2. reflexivity. }
  rewrite GetOrCreate_absent, Initialize_eq by assumption.
  rewrite E2. reflexivity.
Qed.

Lemma WINUWP_retry_hands_out_half_built_factory_witness :
  peerConnectionFactory engine_no_factory (init_runs initial) = false /\
  exists s1,
    GetOrCreateWebRtcFactory true engine_no_factory false None initial
      = Returns (kUnknownError, None) s1 /\
    GetOrCreateWebRtcFactory true engine_no_factory false None s1
      = Returns (kSuccess, Some (ImplOf 0)) s1.
Proof.
  split; [reflexivity|].
  destruct (WINUWP_retry_hands_out_half_built_factory engine_no_factory None None
              false initial eq_refl eq_refl eq_refl) as (s1 & A & _ & _ & B & _).
  exists s1. split; [exact A|exact B].
Defined.

(** X9.  What a call leaves alone.  An acquisition never changes the alive
    map and never shuts down.  Every other call never runs [Initialize], and
    leaves the factory handle as it is unless it is the removal that empties
    the alive map, which leaves it null. *)
Theorem calls_leave_alone WINUWP engine c s r s' :
  perform WINUWP engine c s = Returns r s' ->
  (acquires c = true ->
     alive_objects_ s' = alive_objects_ s /\ shutdown_runs s' = shutdown_runs s) /\
  (acquires c = false ->
     init_runs s' = init_runs s /\
     (factory_ s' = factory_ s \/
      (factory_ s' = None /\ alive_objects_ s' = ∅ /\ alive_objects_ s <> ∅))).
Proof.
  intros H.
  assert (Hinit : forall a res s1, Initialize WINUWP engine a s = Returns res s1 ->
            alive_objects_ s1 = alive_objects_ s /\ shutdown_runs s1 = shutdown_runs s).
  { intros a res s1 Hi.
    destruct (factory_ s) as [f|] eqn:Ef.
    { rewrite Initialize_factory_present in Hi by (rewrite Ef; eauto). discriminate. }
    rewrite Initialize_eq in Hi by assumption. unfold initialized in Hi.
    repeat case_match; simplify_eq; split; reflexivity. }
  destruct c as [a|a f0| | |e type obj|type obj|a|a i0];
    cbn [perform acquires] in *; unfold_bind; (split; [intros Ha|intros Ha]);
    try discriminate Ha.
  - destruct (factory_ s) as [f|] eqn:Ef.
    + rewrite (GetOrCreate_present _ _ _ _ _ Ef) in H. inversion H; subst; auto.
    + rewrite (GetOrCreate_absent _ _ _ _ Ef) in H.
      destruct (Initialize WINUWP engine a s) as [res s1| |] eqn:Ei; try discriminate.
      destruct (decide _); inversion H; subst; eapply Hinit; eauto.
  - destruct (factory_ s) as [f|] eqn:Ef.
    + rewrite (GetOrCreate_ref_present _ _ _ _ _ _ Ef) in H. inversion H; subst; auto.
    + rewrite (GetOrCreate_ref_absent _ _ _ _ _ Ef) in H.
      destruct (Initialize WINUWP engine a s) as [res s1| |] eqn:Ei; try discriminate.
      destruct (decide _); inversion H; subst; eapply Hinit; eauto.
  - unfold GetExisting, getState in H. unfold_bind. inversion H; subst; auto.
  - unfold GetWorkerThread, getState, abort in H. unfold_bind.
    repeat case_match; simplify_eq; auto.
  - rewrite AddObject_eq in H. inversion H; subst.
    repeat case_match; auto.
  - rewrite RemoveObject_eq in H.
    destruct (alive_objects_ s !! obj) as [k|] eqn:Ek.
    + destruct (bool_decide (k = type)); [|discriminate]. cbn zeta in H.
      destruct (decide _) as [He|Hn]; inversion H; subst.
      * split; [unfold shut_down; destruct WINUWP; reflexivity|].
        right. split; [unfold shut_down; destruct WINUWP; reflexivity|].
        split; [unfold shut_down; destruct WINUWP; exact He|].
        intros E. rewrite E in Ek. rewrite lookup_empty in Ek. discriminate.
      * auto.
    + inversion H; subst; auto.
  - rewrite get_eq in H. destruct (isSome (impl_ s)).
    + inversion H; subst; auto.
    + destruct (Initialize WINUWP engine a s) as [res s1| |] eqn:Ei; try discriminate.
      destruct (decide _); inversion H; subst; eapply Hinit; eauto.
  - rewrite GetOrCreateWebRtcFactory_eq in H. destruct (isSome (impl_ s)).
    + inversion H; subst; auto.
    + destruct (Initialize WINUWP engine a s) as [res s1| |] eqn:Ei; try discriminate.
      destruct (decide _); inversion H; subst; eapply Hinit; eauto.
Qed.

Lemma calls_leave_alone_witness :
  let s := set_alive_objects_ {[ 5%N := kPeerConnection ]}
             (initialized false engine_ok initial) in
  perform false engine_ok (Call_RemoveObject kPeerConnection 5%N) s
    = Returns Reply_void (shut_down false (set_alive_objects_ ∅ s)) /\
  init_runs (shut_down false (set_alive_objects_ ∅ s)) = init_runs s.
Proof.
  intros s.
  assert (H : perform false engine_ok (Call_RemoveObject kPeerConnection 5%N) s
              = Returns Reply_void (shut_down false (set_alive_objects_ ∅ s)))
    by (vm_compute; reflexivity).
  split; [exact H|].
  destruct (calls_leave_alone false engine_ok _ s _ _ H) as [_ B].
  destruct (B eq_refl) as [E _]. exact E.
Defined.

End GlobalFactoryMore.

(* ===================================================================== *)
(** * Part VI.  Further properties of the working buffer                   *)
(* ===================================================================== *)

Section BufferMore.

Import AudioReadStream.

(** X10.  Two reads in a row deliver what one read of the combined length
    delivers: reading [n] samples and then [m] more, at the place in the
    destination where the first read stopped, takes the same number of
    samples in all, writes the same destination and leaves the same buffer
    as reading [n + m] at once, also when the buffer runs out on the way. *)
Theorem readSome_composes (b : Buffer) (dst : list float) (n m : Z) :
  buffer_inv b ->
  Z.of_nat (length (data_ b)) <= INT_MAX ->
  0 <= n -> 0 <= m ->
  n + m <= Z.of_nat (length dst) ->
  exists t1 d1 b1 t2 d2 b2,
    readSome b dst n = Some (t1, d1, b1) /\
    readSome b1 (skipn (Z.to_nat t1) d1) m = Some (t2, d2, b2) /\
    readSome b dst (n + m)
      = Some (t1 + t2, firstn (Z.to_nat t1) d1 ++ d2, b2).
Proof.
  intros Hinv Hfit Hn Hm Hroom.
  assert (Hok : buffer_ok b) by (split; assumption).
  pose proof (available_eq b Hok) as Hav.
  destruct Hinv as [H0 H1].
  set (t1 := Z.min (available b) n).
  set (A1 := firstn (Z.to_nat t1) (skipn (Z.to_nat (used_ b)) (data_ b))).
  set (b1 := {| data_ := data_ b; used_ := used_ b + t1;
                channels_ := channels_ b; rate_ := rate_ b |}).
  assert (Hok1 : buffer_ok b1).
  { unfold buffer_ok, buffer_inv, b1, t1. cbn [data_ used_]. lia. }
  pose proof (available_eq b1 Hok1) as Hav1. cbn [data_ used_ b1] in Hav1.
  fold b1 in Hav1.
  set (t2 := Z.min (available b1) m).
  assert (HA1 : length A1 = Z.to_nat t1).
  { unfold A1. rewrite length_firstn, length_skipn. unfold t1. lia. }
  assert (Hd1 : skipn (Z.to_nat t1) (A1 ++ skipn (Z.to_nat t1) dst)
                = skipn (Z.to_nat t1) dst).
  { rewrite skipn_app, HA1. rewrite (skipn_all2 A1) by lia.
    replace (Z.to_nat t1 - Z.to_nat t1)%nat with 0%nat by lia. reflexivity. }
  assert (Hf1 : firstn (Z.to_nat t1) (A1 ++ skipn (Z.to_nat t1) dst) = A1).
  { rewrite firstn_app, HA1. replace (Z.to_nat t1 - Z.to_nat t1)%nat with 0%nat by lia.
    rewrite <- HA1 at 1. rewrite firstn_all. cbn [firstn]. apply app_nil_r. }
  exists t1, (A1 ++ skipn (Z.to_nat t1) dst), b1, t2.
  eexists _, _. split; [|split].
  - apply (readSome_eq b dst n Hok). lia.
  - rewrite Hd1.
    apply (readSome_eq b1 (skipn (Z.to_nat t1) dst) m Hok1).
    rewrite length_skipn. unfold t1. lia.
  - rewrite (readSome_eq b dst (n + m) Hok) by lia.
    assert (Ht : Z.min (available b) (n + m) = t1 + t2) by (unfold t1, t2; lia).
    rewrite Ht. rewrite Hf1. cbn [data_ used_ channels_ rate_ b1].
    fold t2.
    assert (Ht0 : 0 <= t1 /\ 0 <= t2) by (unfold t1, t2; lia).
    assert (Hn12 : Z.to_nat (t1 + t2) = (Z.to_nat t1 + Z.to_nat t2)%nat) by lia.
    assert (Edata : firstn (Z.to_nat (t1 + t2)) (skipn (Z.to_nat (used_ b)) (data_ b))
                    = A1 ++ firstn (Z.to_nat t2)
                              (skipn (Z.to_nat (used_ b + t1)) (data_ b))).
    { rewrite Hn12, <- take_take_drop. unfold A1. f_equal. f_equal.
      rewrite skipn_skipn. f_equal. lia. }
    assert (Edst : skipn (Z.to_nat (t1 + t2)) dst
                   = skipn (Z.to_nat t2) (skipn (Z.to_nat t1) dst)).
    { rewrite skipn_skipn. f_equal. lia. }
    rewrite Edata, Edst, <- app_assoc, Z.add_assoc. reflexivity.
Qed.

Lemma readSome_composes_witness :
  let b := {| data_ := [1%float; 2%float; 3%float; 4%float]; used_ := 1;
              channels_ := 1; rate_ := 48000 |} in
  let dst := [0%float; 0%float; 0%float; 0%float; 0%float] in
  buffer_inv b /\
  exists b2,
    readSome b dst (2 + 3)
      = Some (3, [2%float; 3%float; 4%float; 0%float; 0%float], b2) /\
    used_ b2 = 4.
Proof.
  intros b dst.
  assert (Hinv : buffer_inv b) by (unfold buffer_inv; simpl; lia).
  split; [exact Hinv|].
  destruct (readSome_composes b dst 2 3 Hinv ltac:(unfold INT_MAX; simpl; lia)
              ltac:(lia) ltac:(lia) ltac:(simpl; lia))
    as (t1 & d1 & b1 & t2 & d2 & b2 & E1 & E2 & E3).
  exists b2. rewrite E3.
  vm_compute in E1. inversion E1; subst.
  vm_compute in E2. inversion E2; subst.
  split; reflexivity.
Defined.



(** X12.  Nothing to read, nothing done: when the buffer has no unread
    sample or the length asked is 0, [readSome] returns 0 and leaves both
    the destination and the buffer exactly as they were; and these are the
    only cases in which it returns 0. *)
Theorem readSome_zero_iff (b : Buffer) (dst : list float) (dstLen : Z) :
  buffer_inv b ->
  Z.of_nat (length (data_ b)) <= INT_MAX ->
  0 <= dstLen <= Z.of_nat (length dst) ->
  exists take dst' b',
    readSome b dst dstLen = Some (take, dst', b') /\
    (take = 0 <-> available b = 0 \/ dstLen = 0) /\
    (take = 0 -> dst' = dst /\ b' = b).
Proof.
  intros Hinv Hfit Hlen.
  assert (Hok : buffer_ok b) by (split; assumption).
  pose proof (available_eq b Hok) as Hav.
  destruct Hinv as [H0 H1].
  eexists _, _, _. split; [apply readSome_eq; assumption|].
  split; [lia|].
  intros Hz. rewrite Hz. cbn [Z.to_nat firstn skipn app].
  split; [reflexivity|]. rewrite Z.add_0_r. destruct b; reflexivity.
Qed.

Lemma readSome_zero_iff_witness :
  let b := {| data_ := [1%float; 2%float]; used_ := 2;
              channels_ := 1; rate_ := 48000 |} in
  buffer_inv b /\
  readSome b [7%float; 8%float] 2 = Some (0, [7%float; 8%float], b).
Proof.
  intros b.
  assert (Hinv : buffer_inv b) by (unfold buffer_inv; simpl; lia).
  split; [exact Hinv|].
  destruct (readSome_zero_iff b [7%float; 8%float] 2 Hinv
              ltac:(unfold INT_MAX; simpl; lia) ltac:(simpl; lia))
    as (t & d & b' & E & _ & _).
  rewrite E. vm_compute in E. inversion E; subst. reflexivity.
Defined.

End BufferMore.

(* ===================================================================== *)
(** * Part VII.  Properties of the audio device probe                      *)
(* ===================================================================== *)

Section DeviceProbeFacts.

Import DeviceProbe.

Lemma starts_with_spec (sub s : list Z) :
  starts_with sub s = true <-> exists post, s = sub ++ post.
Proof.
  revert s. induction sub as [|c sub IH]; intros s; cbn [starts_with].
  - split; [intros _; exists s; reflexivity|reflexivity].
  - destruct s as [|d s].
    + split; [discriminate|]. intros [post H]. discriminate.
    + rewrite andb_true_iff, Z.eqb_eq, IH. split.
      * intros [-> [post ->]]. exists post. reflexivity.
      * intros [post H]. inversion H; subst. split; [reflexivity|eauto].
Qed.

Lemma find_from_spec (sub : list Z) : forall s pos,
  is_Some (find_from s sub pos) <-> exists pre post, s = pre ++ sub ++ post.
Proof.
  induction s as [|c s IH]; intros pos; cbn [find_from].
  - destruct (starts_with sub []) eqn:E.
    + split; [|eauto]. intros _. apply starts_with_spec in E.
      destruct E as [post E]. exists [], post. exact E.
    + split; [intros [x H]; discriminate|].
      intros (pre & post & H). exfalso.
      destruct pre; [|discriminate]. cbn [app] in H.
      assert (starts_with sub [] = true) by (apply starts_with_spec; eauto).
      congruence.
  - destruct (starts_with sub (c :: s)) eqn:E.
    + split; [|eauto]. intros _. apply starts_with_spec in E.
      destruct E as [post E]. exists [], post. exact E.
    + rewrite IH. split.
      * intros (pre & post & ->). exists (c :: pre), post. reflexivity.
      * intros (pre & post & H). destruct pre as [|p pre].
        { exfalso. cbn [app] in H.
          assert (starts_with sub (c :: s) = true) by (apply starts_with_spec; eauto).
          congruence. }
        inversion H; subst. eauto.
Qed.

(** X13.  [icontains] answers true exactly when the second string, both
    strings being folded character by character by the lambda, occurs as a
    contiguous part of the first.  So an empty second string is contained in
    every string, and a string is never contained in a shorter one. *)
Theorem icontains_spec (str substr : list Z) :
  (icontains str substr = true <->
   exists pre post, map lower str = pre ++ map lower substr ++ post) /\
  icontains str [] = true /\
  ((length str < length substr)%nat -> icontains str substr = false).
Proof.
  assert (Hspec : forall a b,
            icontains a b = true <->
            exists pre post, map lower a = pre ++ map lower b ++ post).
  { intros a b. unfold icontains, find.
    rewrite <- (find_from_spec (map lower b) (map lower a) 0).
    destruct (find_from (map lower a) (map lower b) 0).
    - split; [eauto|reflexivity].
    - split; [discriminate|]. intros [x H]. discriminate. }
  split; [apply Hspec|]. split.
  - apply Hspec. exists [], (map lower str). reflexivity.
  - intros Hlen. destruct (icontains str substr) eqn:E; [|reflexivity].
    apply Hspec in E. destruct E as (pre & post & E).
    apply (f_equal (@length Z)) in E.
    rewrite !length_app, !length_map in E. lia.
Qed.

Lemma icontains_spec_witness :
  (length [72; 105] < length [104; 105; 33])%nat /\
  icontains [72; 105] [104; 105; 33] = false.
Proof.
  assert (H : (length [72; 105] < length [104; 105; 33])%nat) by (simpl; lia).
  split; [exact H|].
  destruct (icontains_spec [72; 105] [104; 105; 33]) as (_ & _ & F).
  exact (F H).
Defined.

Lemma tolower_swapcase c : tolower (swapcase c) = tolower c.
Proof.
  unfold tolower, swapcase.
  destruct (Z.leb_spec 65 c), (Z.leb_spec c 90), (Z.leb_spec 97 c),
    (Z.leb_spec c 122); cbn [andb];
    repeat match goal with
           | |- context [(?a <=? ?b)] => destruct (Z.leb_spec a b)
           end; cbn [andb]; lia.
Qed.

Lemma lower_alike c d : alike c d -> lower c = lower d.
Proof.
  unfold alike, lower. intros [->| ->]; [reflexivity|].
  rewrite tolower_swapcase. reflexivity.
Qed.

(** X14.  [icontains] sees of each character only its low byte, and of an
    ASCII letter not its case: replacing characters, in either string, by
    characters with the same low byte or with the low byte of the other
    case of the same letter never changes the answer.  So a wide character
    such as U+0141 counts as the letter A. *)
Theorem icontains_low_byte_case_fold (s s' sub sub' : list Z) :
  Forall2 alike s s' ->
  Forall2 alike sub sub' ->
  icontains s sub = icontains s' sub'.
Proof.
  assert (Hmap : forall a b, Forall2 alike a b -> map lower a = map lower b).
  { intros a b H. induction H as [|x y a b Hxy _ IH]; [reflexivity|].
    cbn [map]. rewrite IH, (lower_alike x y Hxy). reflexivity. }
  intros H1 H2. unfold icontains. rewrite (Hmap _ _ H1), (Hmap _ _ H2). reflexivity.
Qed.

Lemma icontains_low_byte_case_fold_witness :
  Forall2 alike [321; 66] [97; 98] /\
  icontains [75; 321; 66] [321; 66] = icontains [75; 321; 66] [97; 98] /\
  icontains [75; 321; 66] [97; 98] = true.
Proof.
  assert (H : Forall2 alike [321; 66] [97; 98]).
  { repeat constructor; right; reflexivity. }
  assert (H0 : Forall2 alike [75; 321; 66] [75; 321; 66]).
  { repeat constructor; left; reflexivity. }
  split; [exact H|]. split.
  - apply (icontains_low_byte_case_fold _ _ _ _ H0 H).
  - reflexivity.
Defined.

(** ** IsDeviceConnected *)

Lemma first_hit_cons devices ep eps k :
  first_hit devices (ep :: eps) k <->
  (k = 0%nat /\ endpoint_ok ep = true /\ matches ep devices = true) \/
  (exists k', k = S k' /\ endpoint_ok ep = true /\ matches ep devices = false /\
              first_hit devices eps k').
Proof.
  unfold first_hit. split.
  - intros [(e & He & Hok & Hm) Hbefore]. destruct k as [|k'].
    + left. cbn in He. inversion He; subst. auto.
    + right. exists k'. destruct (Hbefore 0%nat ep ltac:(lia) eq_refl) as [A B].
      split; [reflexivity|]. split; [exact A|]. split; [exact B|].
      split; [exists e; auto|].
      intros j epj Hj Hl. apply (Hbefore (S j) epj); [lia|exact Hl].
  - intros [(-> & Hok & Hm)|(k' & -> & Hok & Hm & (e & He & Hok' & Hm') & Hbefore)].
    + split; [exists ep; auto|]. intros j epj Hj. lia.
    + split; [exists e; auto|]. intros j epj Hj Hl. destruct j as [|j'].
      * cbn in Hl. inversion Hl; subst. auto.
      * apply (Hbefore j' epj); [lia|exact Hl].
Qed.

Lemma endpoint_ok_true ep :
  endpoint_ok ep = true <->
  FAILED (Item_hr ep) = false /\ FAILED (GetId_hr ep) = false /\
  FAILED (OpenPropertyStore_hr ep) = false /\ FAILED (GetValue_hr ep) = false.
Proof.
  unfold endpoint_ok. rewrite !andb_true_iff, !negb_true_iff. tauto.
Qed.

Lemma loop_found devices : forall eps i,
  fst (loop devices i eps) = Some true <-> exists k, first_hit devices eps k.
Proof.
  induction eps as [|ep eps IH]; intros i.
  - cbn [loop fst]. split; [discriminate|].
    intros (k & (e & He & _) & _). rewrite lookup_nil in He. discriminate.
  - assert (Hbad : endpoint_ok ep = false ->
              ~ exists k, first_hit devices (ep :: eps) k).
    { intros Hf (k & Hk). apply first_hit_cons in Hk.
      destruct Hk as [(_ & Hok & _)|(k' & _ & Hok & _)]; congruence. }
    cbn [loop]. unfold endpoint_ok in Hbad.
    destruct (FAILED (Item_hr ep)) eqn:E1;
      [cbn [fst]; split; [discriminate|intros H; exfalso; apply Hbad; auto]|].
    destruct (FAILED (GetId_hr ep)) eqn:E2;
      [cbn [fst]; split; [discriminate|intros H; exfalso; apply Hbad; auto]|].
    destruct (FAILED (OpenPropertyStore_hr ep)) eqn:E3;
      [cbn [fst]; split; [discriminate|intros H; exfalso; apply Hbad; auto]|].
    destruct (FAILED (GetValue_hr ep)) eqn:E4;
      [cbn [fst]; split; [discriminate|intros H; exfalso; apply Hbad; auto]|].
    assert (Hok : endpoint_ok ep = true)
      by (apply endpoint_ok_true; auto).
    destruct (matches ep devices) eqn:Em.
    + cbn [fst]. split; [|reflexivity]. intros _. exists 0%nat.
      apply first_hit_cons. left. auto.
    + specialize (IH (S i)).
      destruct (loop devices (S i) eps) as [r tr]. cbn [fst] in *.
      rewrite IH. split.
      * intros (k & Hk). exists (S k). apply first_hit_cons. right. eauto 10.
      * intros (k & Hk). apply first_hit_cons in Hk.
        destruct Hk as [(_ & _ & Hm)|(k' & _ & _ & _ & Hk')]; [congruence|eauto].
Qed.

(** X15.  [IsDeviceConnected] returns true exactly when [CoCreateInstance],
    [EnumAudioEndpoints] and [GetCount] succeed and some endpoint has a
    friendly name that contains one of the devices, every endpoint before it
    having been queried without an error and without a match.  An error met
    before the first match makes the answer false, and so does an empty
    device list. *)
Theorem IsDeviceConnected_true_iff (sys : AudioSystem) (flow : EDataFlow)
    (devices : list (list Z)) :
  (fst (IsDeviceConnected sys flow devices) = true <->
   setup_ok sys flow = true /\
   exists k, first_hit devices (endpoints sys flow) k) /\
  fst (IsDeviceConnected sys flow []) = false.
Proof.
  assert (Hiff : forall ds,
            fst (IsDeviceConnected sys flow ds) = true <->
            setup_ok sys flow = true /\
            exists k, first_hit ds (endpoints sys flow) k).
  { intros ds. unfold IsDeviceConnected, setup_ok.
    destruct (FAILED (CoCreateInstance_hr sys));
      [cbn; split; [discriminate|intros [? _]; discriminate]|].
    destruct (FAILED (EnumAudioEndpoints_hr sys flow));
      [cbn; split; [discriminate|intros [? _]; discriminate]|].
    destruct (FAILED (GetCount_hr sys flow));
      [cbn; split; [discriminate|intros [? _]; discriminate]|].
    cbn [negb andb].
    pose proof (loop_found ds (endpoints sys flow) 0) as HL.
    destruct (loop ds 0 (endpoints sys flow)) as [[found|] tr]; cbn [fst] in *.
    - rewrite <- HL. split.
      + intros ->. auto.
      + intros [_ H]. congruence.
    - rewrite <- HL. split; [discriminate|]. intros [_ H]. discriminate. }
  split; [apply Hiff|].
  destruct (fst (IsDeviceConnected sys flow [])) eqn:E; [|reflexivity].
  apply Hiff in E. destruct E as (_ & k & (ep & _ & _ & Hm) & _).
  unfold matches in Hm. destruct (pwszVal ep); discriminate.
Qed.

Lemma IsDeviceConnected_true_iff_witness :
  let ep := {| Item_hr := 0; GetId_hr := 0; OpenPropertyStore_hr := 0;
               GetValue_hr := 0; pwszVal := Some [75; 105; 110; 101; 99; 116] |} in
  let sys := {| CoCreateInstance_hr := 0; EnumAudioEndpoints_hr := fun _ => 0;
                GetCount_hr := fun _ => 0; endpoints := fun _ => [ep] |} in
  setup_ok sys eCapture = true /\
  first_hit [[68; 69; 78; 79; 78]; [107; 73; 78]] (endpoints sys eCapture) 0 /\
  fst (IsDeviceConnected sys eCapture [[68; 69; 78; 79; 78]; [107; 73; 78]]) = true.
Proof.
  intros ep sys.
  assert (H1 : setup_ok sys eCapture = true) by reflexivity.
  assert (H2 : first_hit [[68; 69; 78; 79; 78]; [107; 73; 78]] (endpoints sys eCapture) 0).
  { split; [exists ep; repeat split|]. intros j epj Hj. lia. }
  split; [exact H1|]. split; [exact H2|].
  destruct (IsDeviceConnected_true_iff sys eCapture
              [[68; 69; 78; 79; 78]; [107; 73; 78]]) as [[_ B] _].
  apply B. split; [exact H1|]. exists 0%nat. exact H2.
Defined.

Lemma remove_one_head r l : remove_one r (r :: l) = Some l.
Proof. cbn [remove_one]. rewrite decide_True by reflexivity. reflexivity. Qed.

Lemma remove_one_skip h r l :
  h <> r ->
  remove_one r (h :: l) =
    match remove_one r l with Some l' => Some (h :: l') | None => None end.
Proof. intros H. cbn [remove_one]. rewrite decide_False by assumption. reflexivity. Qed.

Lemma ledger_app t1 : forall t2 held,
  ledger (t1 ++ t2) held =
    match ledger t1 held with Some held' => ledger t2 held' | None => None end.
Proof.
  induction t1 as [|e t1 IH]; intros t2 held; [reflexivity|].
  destruct e as [what hr|r|i|msg]; cbn [app ledger]; try apply IH.
  - destruct (acquired what); [destruct (FAILED hr)|]; apply IH.
  - destruct (remove_one r held); [apply IH|reflexivity].
Qed.

Ltac ledger_run :=
  repeat first
    [ progress cbn [ledger acquired app Exit SAFE_RELEASE]
    | rewrite remove_one_head
    | rewrite remove_one_skip by discriminate
    | match goal with
      | H : FAILED ?hr = _ |- context [FAILED ?hr] => rewrite H
      end ].

Lemma loop_ledger devices : forall eps i,
  ledger (snd (loop devices i eps)) [Collection; Enumerator] =
    Some (match fst (loop devices i eps) with
          | Some _ => [Collection; Enumerator]
          | None => []
          end).
Proof.
  induction eps as [|ep eps IH]; intros i; [reflexivity|].
  cbn [loop].
  destruct (FAILED (Item_hr ep)) eqn:E1; [cbn [fst snd]; ledger_run; reflexivity|].
  destruct (FAILED (GetId_hr ep)) eqn:E2; [cbn [fst snd]; ledger_run; reflexivity|].
  destruct (FAILED (OpenPropertyStore_hr ep)) eqn:E3;
    [cbn [fst snd]; ledger_run; reflexivity|].
  destruct (FAILED (GetValue_hr ep)) eqn:E4;
    [cbn [fst snd]; ledger_run; reflexivity|].
  destruct (matches ep devices) eqn:Em.
  - cbn [fst snd]. destruct (pwszVal ep); ledger_run; reflexivity.
  - specialize (IH (S i)). destruct (loop devices (S i) eps) as [r tr].
    cbn [fst snd] in *. rewrite ledger_app.
    ledger_run. exact IH.
Qed.

(** X16.  On every path through [IsDeviceConnected], whatever call fails and
    wherever, every COM interface and every identifier string a successful
    call handed over is released exactly once before the function returns:
    nothing is leaked and nothing is released that is not held. *)
Theorem IsDeviceConnected_releases_everything (sys : AudioSystem)
    (flow : EDataFlow) (devices : list (list Z)) :
  ledger (snd (IsDeviceConnected sys flow devices)) [] = Some [].
Proof.
  unfold IsDeviceConnected.
  destruct (FAILED (CoCreateInstance_hr sys)) eqn:E1;
    [cbn [snd]; ledger_run; reflexivity|].
  destruct (FAILED (EnumAudioEndpoints_hr sys flow)) eqn:E2;
    [cbn [snd]; ledger_run; reflexivity|].
  destruct (FAILED (GetCount_hr sys flow)) eqn:E3;
    [cbn [snd]; ledger_run; reflexivity|].
  pose proof (loop_ledger devices (endpoints sys flow) 0) as HL.
  destruct (loop devices 0 (endpoints sys flow)) as [[found|] tr];
    cbn [fst snd] in *.
  - rewrite ledger_app.
    assert (Hhead : ledger
              ([Called CoCreateInstance (CoCreateInstance_hr sys);
                Called EnumAudioEndpoints (EnumAudioEndpoints_hr sys flow);
                Called GetCount (GetCount_hr sys flow)]
               ++ (if (length (endpoints sys flow) =? 0)%nat
                   then [Debug DebugNoEndpoints] else [])) []
              = Some [Collection; Enumerator]).
    { destruct (length (endpoints sys flow) =? 0)%nat; ledger_run; reflexivity. }
    rewrite Hhead, ledger_app, HL. ledger_run. reflexivity.
  - rewrite ledger_app.
    assert (Hhead : ledger
              ([Called CoCreateInstance (CoCreateInstance_hr sys);
                Called EnumAudioEndpoints (EnumAudioEndpoints_hr sys flow);
                Called GetCount (GetCount_hr sys flow)]
               ++ (if (length (endpoints sys flow) =? 0)%nat
                   then [Debug DebugNoEndpoints] else [])) []
              = Some [Collection; Enumerator]).
    { destruct (length (endpoints sys flow) =? 0)%nat; ledger_run; reflexivity. }
    rewrite Hhead. exact HL.
Qed.

Lemma Exit_no_endpoint hr line a b c d e0 ev :
  In ev (Exit hr line a b c d e0) -> endpoint_index ev = None.
Proof.
  destruct a, b, c, d, e0; cbn; intros H;
    repeat (destruct H as [<-|H]; [reflexivity|]); destruct H.
Qed.

Lemma loop_indices devices : forall eps i ev j,
  In ev (snd (loop devices i eps)) ->
  endpoint_index ev = Some j ->
  (i <= j < i + length eps)%nat /\
  forall k, first_hit devices eps k -> (j <= i + k)%nat.
Proof.
  induction eps as [|ep eps IH]; intros i ev j Hin Hj; [destruct Hin|].
  assert (Hhere : forall evs,
            (forall e, In e evs -> endpoint_index e = None \/ endpoint_index e = Some i) ->
            In ev evs ->
            (i <= j < i + length (ep :: eps))%nat /\
            forall k, first_hit devices (ep :: eps) k -> (j <= i + k)%nat).
  { intros evs Hall Hev. destruct (Hall ev Hev) as [H|H]; rewrite H in Hj;
      [discriminate|]. inversion Hj; subst. cbn [length]. split; [lia|].
    intros k _. lia. }
  cbn [loop] in Hin.
  destruct (FAILED (Item_hr ep)) eqn:E1.
  { cbn [snd] in Hin. refine (Hhere _ _ Hin).
    intros e [<-|He]; [right; reflexivity|left; eapply Exit_no_endpoint; eauto]. }
  destruct (FAILED (GetId_hr ep)) eqn:E2.
  { cbn [snd] in Hin. refine (Hhere _ _ Hin).
    intros e He. apply in_app_or in He. destruct He as [He|He].
    - right. repeat (destruct He as [<-|He]; [reflexivity|]). destruct He.
    - left. eapply Exit_no_endpoint; eauto. }
  destruct (FAILED (OpenPropertyStore_hr ep)) eqn:E3.
  { cbn [snd] in Hin. refine (Hhere _ _ Hin).
    intros e He. apply in_app_or in He. destruct He as [He|He].
    - right. repeat (destruct He as [<-|He]; [reflexivity|]). destruct He.
    - left. eapply Exit_no_endpoint; eauto. }
  destruct (FAILED (GetValue_hr ep)) eqn:E4.
  { cbn [snd] in Hin. refine (Hhere _ _ Hin).
    intros e He. apply in_app_or in He. destruct He as [He|He].
    - right. repeat (destruct He as [<-|He]; [reflexivity|]). destruct He.
    - left. eapply Exit_no_endpoint; eauto. }
  assert (Hbody : forall found e,
            In e ([Called (Item i) (Item_hr ep); Called (GetId i) (GetId_hr ep);
                   Called (OpenPropertyStore i) (OpenPropertyStore_hr ep);
                   Called (GetValue i) (GetValue_hr ep)]
                  ++ (if found : bool then
                        match pwszVal ep with
                        | Some name => [Debug (DebugFound name)]
                        | None => []
                        end
                      else [])
                  ++ [Released (IdOf i); VariantCleared i;
                      Released (PropsOf i); Released (EndpointOf i)]) ->
            endpoint_index e = None \/ endpoint_index e = Some i).
  { intros found e He. apply in_app_or in He. destruct He as [He|He].
    - right. repeat (destruct He as [<-|He]; [reflexivity|]). destruct He.
    - left. apply in_app_or in He. destruct He as [He|He].
      + destruct found; [destruct (pwszVal ep)|];
          repeat (destruct He as [<-|He]; [reflexivity|]); destruct He.
      + repeat (destruct He as [<-|He]; [reflexivity|]). destruct He. }
  destruct (matches ep devices) eqn:Em.
  - cbn [snd] in Hin. exact (Hhere _ (Hbody true) Hin).
  - specialize (IH (S i)). destruct (loop devices (S i) eps) as [r tr].
    cbn [snd] in *. apply in_app_or in Hin. destruct Hin as [Hin|Hin].
    + exact (Hhere _ (Hbody false) Hin).
    + destruct (IH ev j Hin Hj) as [Hr Hk]. cbn [length]. split; [lia|].
      intros k Hfh. apply first_hit_cons in Hfh.
      destruct Hfh as [(_ & _ & Hm)|(k' & -> & _ & _ & Hk')]; [congruence|].
      specialize (Hk k' Hk'). lia.
Qed.

(** X17.  [IsDeviceConnected] never asks for an endpoint beyond the count,
    and stops at the first match: no call is made on an endpoint after the
    first one whose name contains a device. *)
Theorem IsDeviceConnected_stops_at_first_match (sys : AudioSystem)
    (flow : EDataFlow) (devices : list (list Z)) (ev : event) (j : nat) :
  In ev (snd (IsDeviceConnected sys flow devices)) ->
  endpoint_index ev = Some j ->
  (j < length (endpoints sys flow))%nat /\
  forall k, first_hit devices (endpoints sys flow) k -> (j <= k)%nat.
Proof.
  unfold IsDeviceConnected. intros Hin Hj.
  destruct (FAILED (CoCreateInstance_hr sys)).
  { cbn [snd] in Hin. destruct Hin as [<-|Hin]; [discriminate|].
    apply Exit_no_endpoint in Hin. congruence. }
  destruct (FAILED (EnumAudioEndpoints_hr sys flow)).
  { cbn [snd] in Hin. apply in_app_or in Hin. destruct Hin as [Hin|Hin].
    - repeat (destruct Hin as [<-|Hin]; [discriminate|]). destruct Hin.
    - apply Exit_no_endpoint in Hin. congruence. }
  destruct (FAILED (GetCount_hr sys flow)).
  { cbn [snd] in Hin. apply in_app_or in Hin. destruct Hin as [Hin|Hin].
    - repeat (destruct Hin as [<-|Hin]; [discriminate|]). destruct Hin.
    - apply Exit_no_endpoint in Hin. congruence. }
  pose proof (loop_indices devices (endpoints sys flow) 0 ev j) as HL.
  destruct (loop devices 0 (endpoints sys flow)) as [[found|] tr];
    cbn [snd] in *.
  - apply in_app_or in Hin. destruct Hin as [Hin|Hin].
    { apply in_app_or in Hin. destruct Hin as [Hin|Hin].
      - repeat (destruct Hin as [<-|Hin]; [discriminate|]). destruct Hin.
      - destruct (length (endpoints sys flow) =? 0)%nat;
          repeat (destruct Hin as [<-|Hin]; [discriminate|]); destruct Hin. }
    apply in_app_or in Hin. destruct Hin as [Hin|Hin].
    + destruct (HL Hin Hj) as [A B]. split; [lia|]. intros k Hk.
      specialize (B k Hk). lia.
    + repeat (destruct Hin as [<-|Hin]; [discriminate|]). destruct Hin.
  - apply in_app_or in Hin. destruct Hin as [Hin|Hin].
    { apply in_app_or in Hin. destruct Hin as [Hin|Hin].
      - repeat (destruct Hin as [<-|Hin]; [discriminate|]). destruct Hin.
      - destruct (length (endpoints sys flow) =? 0)%nat;
          repeat (destruct Hin as [<-|Hin]; [discriminate|]); destruct Hin. }
    destruct (HL Hin Hj) as [A B]. split; [lia|]. intros k Hk.
    specialize (B k Hk). lia.
Qed.

Lemma IsDeviceConnected_stops_at_first_match_witness :
  let ep := {| Item_hr := 0; GetId_hr := 0; OpenPropertyStore_hr := 0;
               GetValue_hr := 0; pwszVal := Some [75; 105; 110] |} in
  let bad := {| Item_hr := -1; GetId_hr := 0; OpenPropertyStore_hr := 0;
                GetValue_hr := 0; pwszVal := None |} in
  let sys := {| CoCreateInstance_hr := 0; EnumAudioEndpoints_hr := fun _ => 0;
                GetCount_hr := fun _ => 0; endpoints := fun _ => [ep; bad] |} in
  In (Called (GetValue 0) 0) (snd (IsDeviceConnected sys eRender [[107; 105]])) /\
  first_hit [[107; 105]] (endpoints sys eRender) 0 /\
  fst (IsDeviceConnected sys eRender [[107; 105]]) = true.
Proof.
  intros ep bad sys.
  assert (Hin : In (Called (GetValue 0) 0)
                   (snd (IsDeviceConnected sys eRender [[107; 105]]))).
  { vm_compute. auto 10. }
  assert (Hfh : first_hit [[107; 105]] (endpoints sys eRender) 0).
  { split; [exists ep; repeat split|]. intros j epj Hj. lia. }
  destruct (IsDeviceConnected_stops_at_first_match sys eRender [[107; 105]]
              _ 0%nat Hin eq_refl) as [_ B].
  pose proof (B 0%nat Hfh) as _.
  split; [exact Hin|]. split; [exact Hfh|reflexivity].
Defined.

End DeviceProbeFacts.

(* ===================================================================== *)
(** * Part VIII.  Properties of the mixer                                  *)
(* ===================================================================== *)

Section MixerFacts.

Import PumpSourcesAndDiscardMixer.

Lemma member_app x l1 l2 : member x (l1 ++ l2) = member x l1 || member x l2.
Proof.
  induction l1 as [|y l1 IH]; [reflexivity|].
  cbn [app member]. rewrite IH, orb_assoc. reflexivity.
Qed.

Lemma erase_first_app_absent x l1 l2 :
  member x l1 = false -> erase_first x (l1 ++ l2) = l1 ++ erase_first x l2.
Proof.
  induction l1 as [|y l1 IH]; [reflexivity|].
  cbn [app member erase_first]. intros H. apply orb_false_iff in H.
  destruct H as [H1 H2]. rewrite H1, (IH H2). reflexivity.
Qed.

Lemma member_split x l :
  member x l = true ->
  exists pre post, l = pre ++ x :: post /\ member x pre = false.
Proof.
  induction l as [|y l IH]; [discriminate|].
  cbn [member]. destruct (N.eqb_spec x y) as [->|Hne].
  - intros _. exists [], l. split; reflexivity.
  - cbn [orb]. intros H. destruct (IH H) as (pre & post & -> & Hpre).
    exists (y :: pre), post. split; [reflexivity|].
    cbn [member]. rewrite Hpre. apply N.eqb_neq in Hne. rewrite Hne. reflexivity.
Qed.

Lemma pump_app env (l1 l2 : list N) : forall pumped warnings,
  pump env (l1 ++ l2) pumped warnings =
    match pump env l1 pumped warnings with
    | Ok (pumped', warnings') => pump env l2 pumped' warnings'
    | Fatal => Fatal
    | Undefined => Undefined
    end.
Proof.
  induction l1 as [|y l1 IH]; intros pumped warnings; [reflexivity|].
  cbn [app pump]. destruct (y =? 0)%N; [reflexivity|].
  destruct (GetAudioFrameWithInfo env y (PreferredSampleRate env y)); apply IH.
Qed.

(** [Mix] with a null source in the list, or with a null frame, is
    undefined; otherwise it returns. *)
Lemma pump_defined env (l : list N) : forall pumped warnings,
  if member 0%N l then pump env l pumped warnings = Undefined
  else exists pumped' warnings', pump env l pumped warnings = Ok (pumped', warnings').
Proof.
  induction l as [|y l IH]; intros pumped warnings; cbn [member pump].
  - eauto.
  - rewrite (N.eqb_sym 0 y). destruct (y =? 0)%N; cbn [orb]; [reflexivity|].
    destruct (GetAudioFrameWithInfo env y (PreferredSampleRate env y)); apply IH.
Qed.

Lemma Mix_undefined_iff env channels frame (m : Mixer) :
  Mix env channels frame m = Undefined <-> member 0%N m = true \/ frame = 0%N.
Proof.
  unfold Mix. pose proof (pump_defined env m [] 0%nat) as H.
  destruct (member 0%N m).
  - rewrite H. split; auto.
  - destruct H as (pumped & warnings & ->).
    destruct (N.eqb_spec frame 0) as [->|Hne].
    + split; auto.
    + split; [discriminate|]. intros [H|H]; [discriminate|contradiction].
Qed.

(** X18.  A source that is not null and not in the list is appended by
    [AddSource], which answers true.  When [Mix] on the list before
    returned (no null source in it, a frame to write to), the next [Mix]
    pumps the same sources and then the new one, after all the others, at
    its preferred rate, with one more warning when it answers [kError], and
    ends in the same [UpdateFrame]; [RemoveSource] then restores the list
    exactly. *)
Theorem AddSource_RemoveSource_round_trip (dcheck : bool) (env : Sources)
    (channels : Z) (frame x : N) (m : Mixer)
    (pumped : list (N * Z)) (warnings : nat) (update : Update) :
  member x m = false ->
  x <> 0%N ->
  Mix env channels frame m = Ok (pumped, warnings, update) ->
  AddSource dcheck x m = Ok (true, m ++ [x]) /\
  Mix env channels frame (m ++ [x]) =
    Ok (pumped ++ [(x, PreferredSampleRate env x)],
        match GetAudioFrameWithInfo env x (PreferredSampleRate env x) with
        | kError => S warnings
        | _ => warnings
        end,
        update) /\
  RemoveSource dcheck x (m ++ [x]) = Ok m.
Proof.
  intros Hm Hx HMix.
  assert (Hz : (x =? 0)%N = false) by (apply N.eqb_neq; exact Hx).
  split; [|split].
  - unfold AddSource. rewrite Hz, Hm, !andb_false_r. reflexivity.
  - unfold Mix in *. rewrite pump_app.
    destruct (pump env m [] 0%nat) as [[pumped0 warnings0]| |]; try discriminate.
    destruct (frame =? 0)%N; [discriminate|].
    inversion HMix; subst; clear HMix.
    cbn [pump]. rewrite Hz.
    destruct (GetAudioFrameWithInfo env x (PreferredSampleRate env x)); reflexivity.
  - unfold RemoveSource. rewrite Hz, andb_false_r, member_app. cbn [member].
    rewrite N.eqb_refl, orb_true_r.
    rewrite erase_first_app_absent by assumption.
    cbn [erase_first]. rewrite N.eqb_refl, app_nil_r. reflexivity.
Qed.

Lemma AddSource_RemoveSource_round_trip_witness :
  let env := {| PreferredSampleRate := fun src => 16000 * Z.of_N src;
                GetAudioFrameWithInfo :=
                  fun src _ => if (src =? 5)%N then kError else kNormal |} in
  let update := {| timestamp := 0; zerobuf_size := 200; samples_per_channel := 80;
                   sample_rate_hz := 8000; num_channels := 2 |} in
  member 7%N [3%N; 5%N] = false /\
  Mix env 2 1%N [3%N; 5%N] = Ok ([(3%N, 48000); (5%N, 80000)], 1%nat, update) /\
  AddSource true 7%N [3%N; 5%N] = Ok (true, [3%N; 5%N; 7%N]) /\
  Mix env 2 1%N [3%N; 5%N; 7%N] =
    Ok ([(3%N, 48000); (5%N, 80000); (7%N, 112000)], 1%nat, update) /\
  RemoveSource true 7%N [3%N; 5%N; 7%N] = Ok [3%N; 5%N].
Proof.
  intros env update.
  assert (HMix : Mix env 2 1%N [3%N; 5%N]
                 = Ok ([(3%N, 48000); (5%N, 80000)], 1%nat, update)) by reflexivity.
  destruct (AddSource_RemoveSource_round_trip true env 2 1%N 7%N [3%N; 5%N]
              _ _ _ eq_refl ltac:(discriminate) HMix) as (A & B & C).
  split; [reflexivity|]. split; [exact HMix|].
  split; [exact A|]. split; [exact B|exact C].
Defined.

(** Without the debug checks [AddSource] takes a null source, and every
    [Mix] after that is undefined. *)
Example Mix_null_source env channels frame (m : Mixer) :
  AddSource false 0%N m = Ok (true, m ++ [0%N]) /\
  Mix env channels frame (m ++ [0%N]) = Undefined.
Proof.
  split; [reflexivity|].
  apply Mix_undefined_iff. left. rewrite member_app. cbn [member].
  rewrite N.eqb_refl, orb_true_r. reflexivity.
Qed.

(** X19.  [RemoveSource] erases one occurrence, the first, of a source that
    is in the list and keeps all the others in their order.  For a source
    that is not in the list it never returns normally: with the debug
    checks on the check fails, without them the vector is asked to erase
    its end iterator. *)
Theorem RemoveSource_first_occurrence (dcheck : bool) (x : N) (m : Mixer) :
  (member x m = true -> (dcheck = true -> x <> 0%N) ->
   exists pre post,
     m = pre ++ x :: post /\ member x pre = false /\
     RemoveSource dcheck x m = Ok (pre ++ post)) /\
  (member x m = false ->
   RemoveSource dcheck x m = if dcheck then Fatal else Undefined).
Proof.
  split.
  - intros Hm Hx. destruct (member_split x m Hm) as (pre & post & -> & Hpre).
    exists pre, post. split; [reflexivity|]. split; [exact Hpre|].
    assert (Hnull : dcheck && (x =? 0)%N = false).
    { destruct dcheck; [|reflexivity]. cbn [andb]. apply N.eqb_neq. auto. }
    unfold RemoveSource. rewrite Hnull, Hm.
    rewrite erase_first_app_absent by assumption.
    cbn [erase_first]. rewrite N.eqb_refl. reflexivity.
  - intros Hm. unfold RemoveSource. rewrite Hm.
    destruct dcheck; [|reflexivity]. cbn [andb].
    destruct (x =? 0)%N; reflexivity.
Qed.

End MixerFacts.
